(** * A multi-room chat server: command processor and room history

    The repository holds two variants of the same server.

    - package [chat] (run by the top-level [main.go]): rooms keep a
      [map[net.Addr]*Client] of members, [/msg TEXT] goes to the sender's
      current room, and a room has no history;
    - [chatv2/main.go]: rooms keep a [sync.Map] of clients and a
      [CircularBuffer] of the last messages, [/msg ROOM TEXT] names the room.

    Both variants are embedded below, [V1] and [V2], next to the
    [CircularBuffer] that both packages declare with the same text.

    What is embedded is the command processor: [Server.Run], the five
    handlers, the broadcast and the history buffer.  A command is taken as
    [Client.ReadInput] builds it: [Args] is the line split on single
    spaces, the command word first.  The readers are embedded after the
    processors, with the parts of [bufio] and [strings] they call, and so
    is the sequence of connections accepted and commands handled that a
    server goes through.  The network, the log and the metrics stay
    outside. *)

From Stdlib Require Import ZArith Ascii String List Lia.
From stdpp Require Import base option list gmap strings.

Set Default Proof Using "Type".

(** ** The part of the Go runtime the handlers rely on *)

Module Go.

(** Run-time panics.  Nothing in the repository recovers from a panic, so a
    panic in a goroutine ends the whole process. *)
Inductive panic : Set :=
| IndexOutOfRange
| SliceBoundsOutOfRange
| IntegerDivideByZero
| NilDereference
| MakeSliceLenOutOfRange.

Inductive result (A : Type) : Type :=
| Ok (a : A)
| Panic (p : panic).
Global Arguments Ok {A} a.
Global Arguments Panic {A} p.

Global Instance result_ret : MRet result := @Ok.
Global Instance result_bind : MBind result := λ A B f m,
  match m with
  | Ok a => f a
  | Panic p => Panic p
  end.

Global Instance panic_eq_dec : EqDecision panic.
Proof. solve_decision. Defined.

(** [int] is 64 bits wide on the targets the server is built for; sums wrap
    around in two's complement. *)
Definition int_wrap (z : Z) : Z := ((z + 2 ^ 63) `mod` 2 ^ 64 - 2 ^ 63)%Z.

Definition int_add (a b : Z) : Z := int_wrap (a + b).

(** [a % b]: the remainder of the truncated division, a panic when [b] is
    zero. *)
Definition int_rem (a b : Z) : result Z :=
  if decide (b = 0%Z) then Panic IntegerDivideByZero else Ok (Z.rem a b).

(** [make([]T, n)]: [makeslice] refuses a negative length and a slice of
    more than [maxAlloc] bytes. *)
Definition maxAlloc : Z := (2 ^ 48)%Z.

Definition make {A} (zero : A) (elem_size : Z) (n : Z) : result (list A) :=
  if decide (0 ≤ n ∧ n * elem_size ≤ maxAlloc)%Z
  then Ok (replicate (Z.to_nat n) zero)
  else Panic MakeSliceLenOutOfRange.

(** [l[i]] as an expression and [l[i] = x] as a statement; both are
    bounds-checked. *)
Definition index {A} (l : list A) (i : Z) : result A :=
  if decide (0 ≤ i)%Z then
    match l !! Z.to_nat i with
    | Some x => Ok x
    | None => Panic IndexOutOfRange
    end
  else Panic IndexOutOfRange.

Definition assign {A} (l : list A) (i : Z) (x : A) : result (list A) :=
  if decide (0 ≤ i < Z.of_nat (length l))%Z
  then Ok (<[Z.to_nat i := x]> l)
  else Panic IndexOutOfRange.

(** [l[k:]] for a constant [k]; panics when [k] exceeds the length. *)
Definition slice_from {A} (l : list A) (k : nat) : result (list A) :=
  if decide (k ≤ length l) then Ok (drop k l) else Panic SliceBoundsOutOfRange.

(** [strings.Join] *)
Fixpoint Join (elems : list string) (sep : string) : string :=
  match elems with
  | [] => ""
  | [e] => e
  | e :: rest => e +:+ sep +:+ Join rest sep
  end.

(** Size in bytes of a string header. *)
Definition sizeof_string : Z := 16.

End Go.

Import Go.

(** ** The bounded history buffer

    [sync.Mutex] is left out: the command processor is the only goroutine
    that ever calls [Add] or [GetAll]. *)

Record CircularBuffer : Type := {
  cb_messages : list string;
  cb_size : Z;
  cb_start : Z;
  cb_end : Z;
  cb_count : Z
}.

Definition NewCircularBuffer (size : Z) : result CircularBuffer :=
  messages ← make ""%string sizeof_string size;
  mret {| cb_messages := messages; cb_size := size;
          cb_start := 0; cb_end := 0; cb_count := 0 |}.

Definition Add (message : string) (cb : CircularBuffer) : result CircularBuffer :=
  messages ← assign (cb_messages cb) (cb_end cb) message;
  e ← int_rem (int_add (cb_end cb) 1) (cb_size cb);
  if decide (cb_count cb = cb_size cb) then
    s ← int_rem (int_add (cb_start cb) 1) (cb_size cb);
    mret {| cb_messages := messages; cb_size := cb_size cb;
            cb_start := s; cb_end := e; cb_count := cb_count cb |}
  else
    mret {| cb_messages := messages; cb_size := cb_size cb;
            cb_start := cb_start cb; cb_end := e;
            cb_count := int_add (cb_count cb) 1 |}.

(** The body of [for i := 0; i < cb.count; i++]: [n] is the number of
    iterations still to run, [i] the loop variable. *)
Fixpoint GetAll_loop (cb : CircularBuffer) (n : nat) (i : Z)
    (res : list string) : result (list string) :=
  match n with
  | O => mret res
  | S n' =>
      k ← int_rem (int_add (cb_start cb) i) (cb_size cb);
      m ← index (cb_messages cb) k;
      res' ← assign res i m;
      GetAll_loop cb n' (int_add i 1) res'
  end.

Definition GetAll (cb : CircularBuffer) : result (list string) :=
  res ← make ""%string sizeof_string (cb_count cb);
  GetAll_loop cb (Z.to_nat (cb_count cb)) 0 res.

(** A run of [Add] calls, first message first. *)
Fixpoint AddAll (msgs : list string) (cb : CircularBuffer) : result CircularBuffer :=
  match msgs with
  | [] => mret cb
  | m :: rest => cb' ← Add m cb; AddAll rest cb'
  end.

(** ** Connections, object references and the wire

    A [net.Conn] is known by the identity of the accepted connection.  The
    [net.Addr] that [RemoteAddr] returns is the address object stored in that
    connection: one per connection, compared by identity when used as a map
    key.  [*Client] and [*Room] are references into the two object heaps of
    the state; dereferencing is total, as it is for a non-nil Go pointer.

    A write to a connection is recorded on the wire whether or not the peer
    still listens: the handlers ignore the error of every [Conn.Write]. *)

Abbreviation conn := nat (only parsing).
Abbreviation addr := nat (only parsing).
Abbreviation client_ref := nat (only parsing).
Abbreviation room_ref := nat (only parsing).

Definition RemoteAddr (c : conn) : addr := c.

Inductive event : Set :=
| Write (c : conn) (data : string)
| Close (c : conn).

Global Instance event_eq_dec : EqDecision event.
Proof. solve_decision. Defined.

Definition LF : string := String "010"%char "".

(** A line of text as it goes on the wire. *)
Definition line (s : string) : string := s +:+ LF.

(** The lines written to connection [c], oldest first. *)
Fixpoint received (c : conn) (w : list event) : list string :=
  match w with
  | [] => []
  | Write c' data :: w' =>
      if decide (c' = c) then data :: received c w' else received c w'
  | Close _ :: w' => received c w'
  end.

(** ** Variant 1: package [chat] *)

Module V1.

Inductive commandID : Set :=
| CMD_NICKNAME | CMD_JOIN | CMD_ROOMS | CMD_MSG | CMD_QUIT.

Record Client : Type := {
  Conn : conn;
  NickName : string;
  Room : option room_ref
}.

Record Room_ : Type := {
  Name : string;
  Members : gmap addr client_ref
}.

Record Command : Type := {
  ID : commandID;
  Client_ : client_ref;
  Args : list string
}.

Global Instance Client_inhabited : Inhabited Client :=
  populate {| Conn := 0; NickName := ""; Room := None |}.
Global Instance Room_inhabited : Inhabited Room_ :=
  populate {| Name := ""; Members := ∅ |}.

(** [Rooms] is the field of the one [Server]; [rooms] and [clients] hold
    the [Room] and [Client] objects; [wire] is what has been sent. *)
Record State : Type := {
  Rooms : gmap string room_ref;
  rooms : gmap room_ref Room_;
  clients : gmap client_ref Client;
  wire : list event
}.

Definition NewServer : State :=
  {| Rooms := ∅; rooms := ∅; clients := ∅; wire := [] |}.

Definition emit (e : event) (σ : State) : State :=
  {| Rooms := Rooms σ; rooms := rooms σ; clients := clients σ;
     wire := wire σ ++ [e] |}.

Definition set_Rooms (R : gmap string room_ref) (σ : State) : State :=
  {| Rooms := R; rooms := rooms σ; clients := clients σ; wire := wire σ |}.

Definition set_room (r : room_ref) (v : Room_) (σ : State) : State :=
  {| Rooms := Rooms σ; rooms := <[r := v]> (rooms σ);
     clients := clients σ; wire := wire σ |}.

Definition set_client (c : client_ref) (v : Client) (σ : State) : State :=
  {| Rooms := Rooms σ; rooms := rooms σ;
     clients := <[c := v]> (clients σ); wire := wire σ |}.

Definition client (σ : State) (c : client_ref) : Client := clients σ !!! c.
Definition room (σ : State) (r : room_ref) : Room_ := rooms σ !!! r.

Definition Client_Error (c : client_ref) (err : string) (σ : State) : State :=
  emit (Write (Conn (client σ c)) ("Error: " +:+ err +:+ LF)) σ.

Definition Client_Message (c : client_ref) (msg : string) (σ : State) : State :=
  emit (Write (Conn (client σ c)) ("> " +:+ msg +:+ LF)) σ.

(** [range r.Members] visits the entries in an order Go leaves open; the
    model takes the order of [map_to_list]. *)
Definition Room_Broadcast (r : room_ref) (sender : client_ref) (msg : string)
    (σ : State) : State :=
  foldl (λ σ' '(a, m),
           if decide (a ≠ RemoteAddr (Conn (client σ' sender)))
           then Client_Message m msg σ' else σ')
        σ (map_to_list (Members (room σ r))).

Definition quitCurrentRoom (c : client_ref) (σ : State) : State :=
  match Room (client σ c) with
  | Some r =>
      let a := RemoteAddr (Conn (client σ c)) in
      let σ1 := set_room r {| Name := Name (room σ r);
                              Members := delete a (Members (room σ r)) |} σ in
      Room_Broadcast r c (NickName (client σ1 c) +:+ " has left the chat") σ1
  | None => σ
  end.

Definition Server_NickName (c : client_ref) (args : list string) (σ : State)
    : result State :=
  name ← index args 1;
  let σ1 := set_client c {| Conn := Conn (client σ c); NickName := name;
                            Room := Room (client σ c) |} σ in
  mret (Client_Message c
          ("all right, Server will know you by " +:+ NickName (client σ1 c)) σ1).

Definition Server_Join (c : client_ref) (args : list string) (σ : State)
    : result State :=
  roomName ← index args 1;
  let '(r, σ1) :=
    match Rooms σ !! roomName with
    | Some r => (r, σ)
    | None =>
        let r := fresh (dom (rooms σ)) in
        (r, set_Rooms (<[roomName := r]> (Rooms σ))
              (set_room r {| Name := roomName; Members := ∅ |} σ))
    end in
  let σ2 := set_room r
              {| Name := Name (room σ1 r);
                 Members := <[RemoteAddr (Conn (client σ1 c)) := c]>
                              (Members (room σ1 r)) |} σ1 in
  let σ3 := quitCurrentRoom c σ2 in
  let σ4 := set_client c {| Conn := Conn (client σ3 c);
                            NickName := NickName (client σ3 c);
                            Room := Some r |} σ3 in
  let σ5 := Room_Broadcast r c
              (NickName (client σ4 c) +:+ " has joined the room") σ4 in
  mret (Client_Message c ("Welcome to " +:+ Name (room σ5 r)) σ5).

Definition Server_ListRooms (c : client_ref) (args : list string) (σ : State)
    : result State :=
  let names := (map_to_list (Rooms σ)).*1 in
  mret (Client_Message c ("available rooms are " +:+ Join names ", ") σ).

(** There is no [return] after the error reply: the broadcast that follows
    goes through the nil [c.Room]. *)
Definition Server_Message (c : client_ref) (args : list string) (σ : State)
    : result State :=
  let σ1 := match Room (client σ c) with
            | None => Client_Error c "you must join the room first" σ
            | Some _ => σ
            end in
  text ← slice_from args 1;
  match Room (client σ1 c) with
  | None => Panic NilDereference
  | Some r =>
      mret (Room_Broadcast r c
              (NickName (client σ1 c) +:+ " : " +:+ Join text " ") σ1)
  end.

Definition Server_Quit (c : client_ref) (args : list string) (σ : State)
    : result State :=
  let σ1 := quitCurrentRoom c σ in
  let σ2 := Client_Message c "sad to see you go :(" σ1 in
  mret (emit (Close (Conn (client σ2 c))) σ2).

Definition dispatch (cmd : Command) (σ : State) : result State :=
  match ID cmd with
  | CMD_NICKNAME => Server_NickName (Client_ cmd) (Args cmd) σ
  | CMD_ROOMS => Server_ListRooms (Client_ cmd) (Args cmd) σ
  | CMD_JOIN => Server_Join (Client_ cmd) (Args cmd) σ
  | CMD_MSG => Server_Message (Client_ cmd) (Args cmd) σ
  | CMD_QUIT => Server_Quit (Client_ cmd) (Args cmd) σ
  end.

(** [for cmd := range s.Commands]: the commands in the order the channel
    hands them over.  A panic in a handler ends the loop. *)
Fixpoint Run (cmds : list Command) (σ : State) : result State :=
  match cmds with
  | [] => mret σ
  | cmd :: rest => σ' ← dispatch cmd σ; Run rest σ'
  end.

(** [Server.NewClient]: a fresh [Client] for an accepted connection. *)
Definition NewClient (cn : conn) (σ : State) : client_ref * State :=
  let c := fresh (dom (clients σ)) in
  (c, set_client c {| Conn := cn; NickName := "Anonymous"; Room := None |} σ).

End V1.

(** ** Variant 2: [chatv2/main.go]

    The Prometheus counters and the logrus calls are left out: they read the
    command and the connection and change nothing the handlers look at.  So
    are the [Commands], [RateLimiter] and [InitialTimer] fields of [Client],
    which the processor never reads. *)

Module V2.

Definition CmdNickname : string := "/name".
Definition CmdRooms : string := "/rooms".
Definition CmdJoin : string := "/join".
Definition CmdMsg : string := "/msg".
Definition CmdQuit : string := "/quit".

Definition ChatRoomBufferSize : Z := 5.

Record Client : Type := {
  Conn : conn;
  NickName : string;
  Room : option room_ref
}.

(** [Clients] is a [sync.Map] from [net.Conn] to [*Client]. *)
Record Room_ : Type := {
  Name : string;
  Clients : gmap conn client_ref;
  Messages : CircularBuffer
}.

Record Command : Type := {
  ID : string;
  Client_ : client_ref;
  Args : list string
}.

Global Instance Client_inhabited : Inhabited Client :=
  populate {| Conn := 0; NickName := ""; Room := None |}.
Global Instance Room_inhabited : Inhabited Room_ :=
  populate {| Name := ""; Clients := ∅;
              Messages := {| cb_messages := []; cb_size := 0; cb_start := 0;
                             cb_end := 0; cb_count := 0 |} |}.

Record State : Type := {
  Rooms : gmap string room_ref;
  rooms : gmap room_ref Room_;
  clients : gmap client_ref Client;
  wire : list event
}.

Definition NewServer : State :=
  {| Rooms := ∅; rooms := ∅; clients := ∅; wire := [] |}.

Definition emit (e : event) (σ : State) : State :=
  {| Rooms := Rooms σ; rooms := rooms σ; clients := clients σ;
     wire := wire σ ++ [e] |}.

Definition set_Rooms (R : gmap string room_ref) (σ : State) : State :=
  {| Rooms := R; rooms := rooms σ; clients := clients σ; wire := wire σ |}.

Definition set_room (r : room_ref) (v : Room_) (σ : State) : State :=
  {| Rooms := Rooms σ; rooms := <[r := v]> (rooms σ);
     clients := clients σ; wire := wire σ |}.

Definition set_client (c : client_ref) (v : Client) (σ : State) : State :=
  {| Rooms := Rooms σ; rooms := rooms σ;
     clients := <[c := v]> (clients σ); wire := wire σ |}.

Definition client (σ : State) (c : client_ref) : Client := clients σ !!! c.
Definition room (σ : State) (r : room_ref) : Room_ := rooms σ !!! r.

Definition NewRoom (name : string) (messageBufferSize : Z) : result Room_ :=
  buf ← NewCircularBuffer messageBufferSize;
  mret {| Name := name; Clients := ∅; Messages := buf |}.

Definition Client_Error (c : client_ref) (err : string) (σ : State) : State :=
  emit (Write (Conn (client σ c)) ("Error: " +:+ err +:+ LF)) σ.

(** [room.Clients.Range]: every entry is written to; there is no sender to
    leave out.  The order of the visits is the order of [map_to_list]. *)
Definition broadcastMessage (r : room_ref) (msg : string) (σ : State) : State :=
  foldl (λ σ' '(_, m), emit (Write (Conn (client σ' m)) (msg +:+ LF)) σ')
        σ (map_to_list (Clients (room σ r))).

Definition Server_ListRooms (c : client_ref) (args : list string) (σ : State)
    : result State :=
  let roomNames := (map_to_list (Rooms σ)).*1 in
  let roomList := if decide (length roomNames = 0)
                  then "no rooms available"%string
                  else Join roomNames ", " in
  mret (emit (Write (Conn (client σ c)) ("Rooms: " +:+ roomList +:+ LF)) σ).

Definition Server_NickName (c : client_ref) (args : list string) (σ : State)
    : result State :=
  if decide (length args < 2) then
    mret (Client_Error c "nickname is required. usage: /name NEW_NICKNAME" σ)
  else
    name ← index args 1;
    let σ1 := set_client c {| Conn := Conn (client σ c); NickName := name;
                              Room := Room (client σ c) |} σ in
    mret (emit (Write (Conn (client σ1 c))
                  ("Nickname changed to: " +:+ NickName (client σ1 c) +:+ LF)) σ1).

Definition Server_Message (c : client_ref) (args : list string) (σ : State)
    : result State :=
  if decide (length args < 2) then
    mret (Client_Error c "message is required. usage: /msg ROOM MESSAGE" σ)
  else
    roomName ← index args 1;
    text ← slice_from args 2;
    let msg := Join text " " in
    match Rooms σ !! roomName with
    | None => mret (Client_Error c "room not found" σ)
    | Some r =>
        let formattedMsg := NickName (client σ c) +:+ ": " +:+ msg in
        buf ← Add formattedMsg (Messages (room σ r));
        let σ1 := set_room r {| Name := Name (room σ r);
                                Clients := Clients (room σ r);
                                Messages := buf |} σ in
        mret (broadcastMessage r formattedMsg σ1)
    end.

(** The replay loop of [Join]: one write per message of the history. *)
Definition replay (cn : conn) (msgs : list string) (σ : State) : State :=
  foldl (λ σ' msg, emit (Write cn (msg +:+ LF)) σ') σ msgs.

Definition Server_Join (c : client_ref) (args : list string) (σ : State)
    : result State :=
  if decide (length args < 2) then
    mret (Client_Error c "room name is required. usage: /join ROOM" σ)
  else
    roomName ← index args 1;
    '(r, σ1) ← match Rooms σ !! roomName with
               | Some r => mret (r, σ)
               | None =>
                   v ← NewRoom roomName ChatRoomBufferSize;
                   let r := fresh (dom (rooms σ)) in
                   mret (r, set_Rooms (<[roomName := r]> (Rooms σ))
                              (set_room r v σ))
               end;
    let σ2 := set_room r
                {| Name := Name (room σ1 r);
                   Clients := <[Conn (client σ1 c) := c]> (Clients (room σ1 r));
                   Messages := Messages (room σ1 r) |} σ1 in
    let σ3 := set_client c {| Conn := Conn (client σ2 c);
                              NickName := NickName (client σ2 c);
                              Room := Some r |} σ2 in
    history ← GetAll (Messages (room σ3 r));
    let σ4 := replay (Conn (client σ3 c)) history σ3 in
    mret (broadcastMessage r
            (NickName (client σ4 c) +:+ " joined the room") σ4).

Definition Server_Quit (c : client_ref) (args : list string) (σ : State)
    : result State :=
  let σ3 :=
    match Room (client σ c) with
    | Some r =>
        let σ1 := set_room r
                    {| Name := Name (room σ r);
                       Clients := delete (Conn (client σ c)) (Clients (room σ r));
                       Messages := Messages (room σ r) |} σ in
        let σ2 := broadcastMessage r
                    (NickName (client σ1 c) +:+ " left the room") σ1 in
        set_client c {| Conn := Conn (client σ2 c);
                        NickName := NickName (client σ2 c);
                        Room := None |} σ2
    | None => σ
    end in
  mret (emit (Close (Conn (client σ3 c))) σ3).

(** The [switch] of [Run] has no default: an unknown [ID] does nothing. *)
Definition dispatch (cmd : Command) (σ : State) : result State :=
  if decide (ID cmd = CmdNickname) then Server_NickName (Client_ cmd) (Args cmd) σ
  else if decide (ID cmd = CmdRooms) then Server_ListRooms (Client_ cmd) (Args cmd) σ
  else if decide (ID cmd = CmdJoin) then Server_Join (Client_ cmd) (Args cmd) σ
  else if decide (ID cmd = CmdMsg) then Server_Message (Client_ cmd) (Args cmd) σ
  else if decide (ID cmd = CmdQuit) then Server_Quit (Client_ cmd) (Args cmd) σ
  else mret σ.

Fixpoint Run (cmds : list Command) (σ : State) : result State :=
  match cmds with
  | [] => mret σ
  | cmd :: rest => σ' ← dispatch cmd σ; Run rest σ'
  end.

Definition NewClient (cn : conn) (σ : State) : client_ref * State :=
  let c := fresh (dom (clients σ)) in
  (c, set_client c {| Conn := cn; NickName := "Anonymous"; Room := None |} σ).

End V2.

(** ** Scenarios *)

Module Scenario.

(** Two accepted connections, 10 and 11; their clients are the objects 0
    and 1. *)
Definition two_clients_v1 : V1.State :=
  foldl (λ σ cn, (V1.NewClient cn σ).2) V1.NewServer [10; 11].

Definition two_clients_v2 : V2.State :=
  foldl (λ σ cn, (V2.NewClient cn σ).2) V2.NewServer [10; 11].

Definition cmd1 (id : V1.commandID) (c : client_ref) (args : list string) : V1.Command :=
  {| V1.ID := id; V1.Client_ := c; V1.Args := args |}.

Definition cmd2 (id : string) (c : client_ref) (args : list string) : V2.Command :=
  {| V2.ID := id; V2.Client_ := c; V2.Args := args |}.

(** Both clients pick a name and join room "A". *)
Definition both_in_A_v1 : list V1.Command :=
  [cmd1 V1.CMD_NICKNAME 0 ["/name"; "alice"];
   cmd1 V1.CMD_NICKNAME 1 ["/name"; "bob"];
   cmd1 V1.CMD_JOIN 0 ["/join"; "A"];
   cmd1 V1.CMD_JOIN 1 ["/join"; "A"]]%string.

Definition both_in_A_v2 : list V2.Command :=
  [cmd2 V2.CmdNickname 0 ["/name"; "alice"];
   cmd2 V2.CmdNickname 1 ["/name"; "bob"];
   cmd2 V2.CmdJoin 0 ["/join"; "A"];
   cmd2 V2.CmdJoin 1 ["/join"; "A"]]%string.

(** The member a room files under a key; [None] when the room or the key
    is missing. *)
Definition member_v1 (σ : V1.State) (name : string) (a : addr) : option client_ref :=
  match V1.Rooms σ !! name with
  | Some r => V1.Members (V1.room σ r) !! a
  | None => None
  end.

Definition member_v2 (σ : V2.State) (name : string) (cn : conn) : option client_ref :=
  match V2.Rooms σ !! name with
  | Some r => V2.Clients (V2.room σ r) !! cn
  | None => None
  end.

(** Alice moves on to room "B"; bob then talks in room "A". *)
Definition alice_moves_v1 : list V1.Command :=
  both_in_A_v1 ++
  [cmd1 V1.CMD_JOIN 0 ["/join"; "B"]; cmd1 V1.CMD_MSG 1 ["/msg"; "hi"]]%string.

Definition alice_moves_v2 : list V2.Command :=
  both_in_A_v2 ++
  [cmd2 V2.CmdJoin 0 ["/join"; "B"]; cmd2 V2.CmdMsg 1 ["/msg"; "A"; "hi"]]%string.

(** Bob talks in the room both are in. *)
Definition bob_talks_v1 : list V1.Command :=
  both_in_A_v1 ++ [cmd1 V1.CMD_MSG 1 ["/msg"; "hi"]]%string.

Definition bob_talks_v2 : list V2.Command :=
  both_in_A_v2 ++ [cmd2 V2.CmdMsg 1 ["/msg"; "A"; "hi"]]%string.

(** Bob sends [/msg A] with no text. *)
Definition bob_sends_no_text_v2 : list V2.Command :=
  both_in_A_v2 ++ [cmd2 V2.CmdMsg 1 ["/msg"; "A"]]%string.

(** Bob quits. *)
Definition bob_quits_v1 : list V1.Command :=
  both_in_A_v1 ++ [cmd1 V1.CMD_QUIT 1 ["/quit"]]%string.


(** Room "A" with bob (connection 11) in it and one message in its history;
    alice (connection 10) is connected and has joined nothing. *)
Definition A_with_history_v2 : V2.State :=
  {| V2.Rooms := {["A"%string := 0]};
     V2.rooms :=
       {[0 := {| V2.Name := "A"; V2.Clients := {[11 := 1]};
                 V2.Messages :=
                   {| cb_messages := ["bob: hi"; ""; ""; ""; ""]%string;
                      cb_size := 5; cb_start := 0; cb_end := 1; cb_count := 1 |} |}]};
     V2.clients :=
       <[0 := {| V2.Conn := 10; V2.NickName := "alice"; V2.Room := None |}]>
         {[1 := {| V2.Conn := 11; V2.NickName := "bob"; V2.Room := Some 0 |}]};
     V2.wire := [] |}.

(** Alice (connection 10) and bob (connection 11) both in room "A", nothing
    on the wire yet. *)
Definition A_with_both_v1 : V1.State :=
  {| V1.Rooms := {["A"%string := 0]};
     V1.rooms := {[0 := {| V1.Name := "A"; V1.Members := <[10 := 0]> {[11 := 1]} |}]};
     V1.clients :=
       <[0 := {| V1.Conn := 10; V1.NickName := "alice"; V1.Room := Some 0 |}]>
         {[1 := {| V1.Conn := 11; V1.NickName := "bob"; V1.Room := Some 0 |}]};
     V1.wire := [] |}.

Definition A_with_both_v2 : V2.State :=
  {| V2.Rooms := {["A"%string := 0]};
     V2.rooms :=
       {[0 := {| V2.Name := "A"; V2.Clients := <[10 := 0]> {[11 := 1]};
                 V2.Messages := {| cb_messages := replicate 5 ""%string; cb_size := 5;
                                   cb_start := 0; cb_end := 0; cb_count := 0 |} |}]};
     V2.clients :=
       <[0 := {| V2.Conn := 10; V2.NickName := "alice"; V2.Room := Some 0 |}]>
         {[1 := {| V2.Conn := 11; V2.NickName := "bob"; V2.Room := Some 0 |}]};
     V2.wire := [] |}.

(** The buffer [NewCircularBuffer 5] returns. *)
Definition empty5 : CircularBuffer :=
  {| cb_messages := replicate 5 ""%string; cb_size := 5;
     cb_start := 0; cb_end := 0; cb_count := 0 |}.

(** The buffer [NewCircularBuffer 0] returns. *)
Definition empty0 : CircularBuffer :=
  {| cb_messages := []; cb_size := 0; cb_start := 0; cb_end := 0; cb_count := 0 |}.

End Scenario.

(** ** Specification vocabulary for the buffer *)

(** The [n] last elements of [l] (all of [l] when it has fewer). *)
Definition most_recent {A} (n : nat) (l : list A) : list A :=
  drop (length l - n) l.

(** The bounds the fields of a buffer stay within. *)
Definition cb_bounds (cb : CircularBuffer) : Prop :=
  (0 ≤ cb_count cb ≤ cb_size cb ∧
   0 ≤ cb_start cb < cb_size cb ∧
   0 ≤ cb_end cb < cb_size cb)%Z.

(** The backing array has [size] cells, as [make] left it. *)
Definition cb_backed (cb : CircularBuffer) : Prop :=
  Z.of_nat (length (cb_messages cb)) = cb_size cb ∧
  (cb_size cb * sizeof_string ≤ maxAlloc)%Z.

(** The cell that holds the [i]-th oldest message. *)
Definition slot (cb : CircularBuffer) (i : nat) : nat :=
  Z.to_nat ((cb_start cb + Z.of_nat i) `mod` cb_size cb).

(** [cb] holds exactly the messages [l], oldest first. *)
Definition represents (cb : CircularBuffer) (l : list string) : Prop :=
  cb_bounds cb ∧ cb_backed cb ∧
  Z.of_nat (length l) = cb_count cb ∧
  cb_end cb = ((cb_start cb + cb_count cb) `mod` cb_size cb)%Z ∧
  ∀ i x, l !! i = Some x → cb_messages cb !! slot cb i = Some x.

(** ** Specification vocabulary for the two servers *)

(** One write of [line] to each connection of [cs]. *)
Definition notices (cs : list conn) (line : string) : list event :=
  (λ cn, Write cn line) <$> cs.

(** The connections of the clients a member map points to. *)
Definition V1_conns (σ : V1.State) (M : gmap addr client_ref) : list conn :=
  (λ p, V1.Conn (V1.client σ p.2)) <$> map_to_list M.

Definition V2_conns (σ : V2.State) (M : gmap conn client_ref) : list conn :=
  (λ p, V2.Conn (V2.client σ p.2)) <$> map_to_list M.

(** Every member is filed under the key of its own connection, which is how
    [Join] stores it. *)
Definition V1_keyed (σ : V1.State) (M : gmap addr client_ref) : Prop :=
  map_Forall (λ a m, RemoteAddr (V1.Conn (V1.client σ m)) = a) M.

Definition V2_keyed (σ : V2.State) (M : gmap conn client_ref) : Prop :=
  map_Forall (λ k m, V2.Conn (V2.client σ m) = k) M.

Global Instance V1_keyed_dec σ M : Decision (V1_keyed σ M).
Proof. unfold V1_keyed. apply _. Defined.

Global Instance V2_keyed_dec σ M : Decision (V2_keyed σ M).
Proof. unfold V2_keyed. apply _. Defined.

(** What the history buffer of the room called [name] holds; nothing when
    no room has that name yet. *)
Definition V2_history (σ : V2.State) (name : string) : result (list string) :=
  match V2.Rooms σ !! name with
  | Some r => GetAll (V2.Messages (V2.room σ r))
  | None => Ok []
  end.

(** All rooms at once. *)
Definition V1_all_keyed (σ : V1.State) : Prop :=
  ∀ r, V1_keyed σ (V1.Members (V1.room σ r)).

Definition V2_all_keyed (σ : V2.State) : Prop :=
  ∀ r, V2_keyed σ (V2.Clients (V2.room σ r)).

(** The history buffer of every registered room is within its bounds. *)
Definition V2_buffers_ok (σ : V2.State) : Prop :=
  ∀ name r, V2.Rooms σ !! name = Some r →
    cb_bounds (V2.Messages (V2.room σ r)) ∧ cb_backed (V2.Messages (V2.room σ r)).

(** ** Reading commands: [Client.ReadInput]

    Both packages read the connection the same way: a new [bufio.Reader] for
    every line, [ReadString] up to the newline, [strings.Trim] of the line
    ends, [strings.Split] on single spaces, and a [switch] on the
    [strings.TrimSpace] of the first token. *)

Module GoStrings.

Definition SP : ascii := " "%char.
Definition CR : ascii := "013"%char.
Definition NL : ascii := "010"%char.

(** The cutset "\r\n" of the call to [strings.Trim]. *)
Definition CRLF : string := String CR (String NL "").

Fixpoint mem (a : ascii) (cutset : string) : bool :=
  match cutset with
  | EmptyString => false
  | String b rest => if Ascii.eqb a b then true else mem a rest
  end.

(** The longest suffix of [s] that does not start with a byte [f] accepts. *)
Fixpoint TrimLeftWhile (f : ascii → bool) (s : string) : string :=
  match s with
  | EmptyString => EmptyString
  | String a s' => if f a then TrimLeftWhile f s' else s
  end.

(** The longest prefix of [s] that does not end with a byte [f] accepts. *)
Fixpoint TrimRightWhile (f : ascii → bool) (s : string) : string :=
  match s with
  | EmptyString => EmptyString
  | String a s' =>
      match TrimRightWhile f s' with
      | EmptyString => if f a then EmptyString else String a EmptyString
      | t => String a t
      end
  end.

(** [strings.Trim(s, cutset)] for a cutset of ASCII bytes: the right end
    first, then the left end, byte by byte. *)
Definition Trim (s cutset : string) : string :=
  TrimLeftWhile (λ a, mem a cutset) (TrimRightWhile (λ a, mem a cutset) s).

(** [strings.Split(s, sep)] for a separator of one byte: as many pieces as
    there are separators, plus one. *)
Fixpoint Split (s : string) (sep : ascii) : list string :=
  match s with
  | EmptyString => [EmptyString]
  | String a s' =>
      if Ascii.eqb a sep then EmptyString :: Split s' sep
      else match Split s' sep with
           | t :: ts => String a t :: ts
           | [] => [String a EmptyString]
           end
  end.

(** The table [asciiSpace]: tab, newline, vertical tab, form feed, carriage
    return and space. *)
Definition asciiSpace (c : ascii) : bool :=
  match nat_of_ascii c with
  | 9 | 10 | 11 | 12 | 13 | 32 => true
  | _ => false
  end.

Definition RuneSelf : nat := 128.

Fixpoint last_byte (s : string) : option ascii :=
  match s with
  | EmptyString => None
  | String a EmptyString => Some a
  | String _ s' => last_byte s'
  end.

Section TrimSpace.

(** [strings.TrimSpace] scans ASCII bytes itself and hands over to
    [TrimFunc(s, unicode.IsSpace)] or [TrimRightFunc(s, unicode.IsSpace)] as
    soon as it meets a byte of a multi-byte character.  These two are library
    code on Unicode tables and stay parameters. *)
Variable TrimFunc_IsSpace : string → string.
Variable TrimRightFunc_IsSpace : string → string.

(** The second loop of [TrimSpace], on [s[start:]]. *)
Definition TrimSpace_stop (s : string) : string :=
  let t := TrimRightWhile asciiSpace s in
  match last_byte t with
  | Some c => if decide (RuneSelf ≤ nat_of_ascii c) then TrimRightFunc_IsSpace t else t
  | None => t
  end.

Fixpoint TrimSpace (s : string) : string :=
  match s with
  | EmptyString => EmptyString
  | String c s' =>
      if decide (RuneSelf ≤ nat_of_ascii c) then TrimFunc_IsSpace s
      else if asciiSpace c then TrimSpace s'
      else TrimSpace_stop s
  end.

End TrimSpace.

End GoStrings.

(** [bufio.Reader.ReadString] on a fresh reader over a connection. *)

Module Bufio.

Definition defaultBufSize : nat := 4096.

Fixpoint take (n : nat) (s : string) : string :=
  match n, s with
  | S n', String a s' => String a (take n' s')
  | _, _ => EmptyString
  end.

Fixpoint drop (n : nat) (s : string) : string :=
  match n, s with
  | S n', String _ s' => drop n' s'
  | _, _ => s
  end.

(** [s] up to and with the first [delim], and what follows it. *)
Fixpoint cut (delim : ascii) (s : string) : option (string * string) :=
  match s with
  | EmptyString => None
  | String a s' =>
      if Ascii.eqb a delim then Some (String a EmptyString, s')
      else match cut delim s' with
           | Some (ln, rest) => Some (String a ln, rest)
           | None => None
           end
  end.

(** What is still to come on a connection: the bytes each successful
    [Read] will find, in order; after the last of them, end of file.  An
    entry without bytes stands for nothing and is passed over.

    [Read space input]: one [Conn.Read] into a slice of [space] bytes.  It
    takes what the first entry has, as far as it fits; the third component
    says that the read hit the end. *)
Fixpoint Read (space : nat) (input : list string) : string * list string * bool :=
  match input with
  | [] => (EmptyString, [], true)
  | EmptyString :: rest => Read space rest
  | ch :: rest =>
      if decide (String.length ch ≤ space) then (ch, rest, false)
      else (take space ch, drop space ch :: rest, false)
  end.

(** The loops of [ReadSlice] and [collectFragments] rolled into one: [acc]
    holds the full buffers copied so far, [buf] the bytes in the reader's
    buffer, [err] whether the last read failed.  The answer is the string
    returned, whether an error comes with it, and what is left on the
    connection; the bytes of [buf] past the delimiter are not part of it:
    they stay in the reader. *)
Fixpoint ReadString_loop (fuel : nat) (delim : ascii) (acc buf : string)
    (err : bool) (input : list string) : option (string * bool * list string) :=
  match fuel with
  | O => None
  | S fuel' =>
      match cut delim buf with
      | Some (ln, _) => Some (acc +:+ ln, false, input)
      | None =>
          if err then Some (acc +:+ buf, true, input)
          else if decide (defaultBufSize ≤ String.length buf)
          then ReadString_loop fuel' delim (acc +:+ buf) EmptyString false input
          else
            let '(data, input', err') := Read (defaultBufSize - String.length buf) input in
            ReadString_loop fuel' delim acc (buf +:+ data) err' input'
      end
  end.

Definition pending (input : list string) : nat :=
  foldr (λ ch n, String.length ch + n) 0 input.

(** [bufio.NewReader(conn).ReadString(delim)] *)
Definition ReadString (delim : ascii) (input : list string)
    : option (string * bool * list string) :=
  ReadString_loop (2 * pending input + 3) delim EmptyString EmptyString false input.

End Bufio.

Module Reader.

(** What the reader does with a line: hand a command to the processor, or
    write a reply to its own connection. *)
Inductive action (Cmd : Type) : Type :=
| Enqueue (cmd : Cmd)
| Reply (data : string).
Global Arguments Enqueue {Cmd} cmd.
Global Arguments Reply {Cmd} data.

Section ReadInput.

Variable TrimFunc_IsSpace : string → string.
Variable TrimRightFunc_IsSpace : string → string.

Definition TrimSpace : string → string :=
  GoStrings.TrimSpace TrimFunc_IsSpace TrimRightFunc_IsSpace.

(** The body of the loop of [ReadInput] in package [chat], from the line
    read on. *)
Definition V1_line (c : client_ref) (msg : string) : result (action V1.Command) :=
  let msg := GoStrings.Trim msg GoStrings.CRLF in
  let args := GoStrings.Split msg GoStrings.SP in
  a0 ← index args 0;
  let cmd := TrimSpace a0 in
  if decide (cmd = "/name") then
    mret (Enqueue {| V1.ID := V1.CMD_NICKNAME; V1.Client_ := c; V1.Args := args |})
  else if decide (cmd = "/rooms") then
    mret (Enqueue {| V1.ID := V1.CMD_ROOMS; V1.Client_ := c; V1.Args := args |})
  else if decide (cmd = "/msg") then
    mret (Enqueue {| V1.ID := V1.CMD_MSG; V1.Client_ := c; V1.Args := args |})
  else if decide (cmd = "/join") then
    mret (Enqueue {| V1.ID := V1.CMD_JOIN; V1.Client_ := c; V1.Args := args |})
  else if decide (cmd = "/quit") then
    mret (Enqueue {| V1.ID := V1.CMD_QUIT; V1.Client_ := c; V1.Args := args |})
  else mret (Reply ("Error: " +:+ ("Unknown command: " +:+ cmd) +:+ LF)).

(** The same in [chatv2]. *)
Definition V2_line (c : client_ref) (msg : string) : result (action V2.Command) :=
  let msg := GoStrings.Trim msg GoStrings.CRLF in
  let args := GoStrings.Split msg GoStrings.SP in
  a0 ← index args 0;
  let cmd := TrimSpace a0 in
  if decide (cmd = "/name") then
    mret (Enqueue {| V2.ID := V2.CmdNickname; V2.Client_ := c; V2.Args := args |})
  else if decide (cmd = "/rooms") then
    mret (Enqueue {| V2.ID := V2.CmdRooms; V2.Client_ := c; V2.Args := args |})
  else if decide (cmd = "/msg") then
    mret (Enqueue {| V2.ID := V2.CmdMsg; V2.Client_ := c; V2.Args := args |})
  else if decide (cmd = "/join") then
    mret (Enqueue {| V2.ID := V2.CmdJoin; V2.Client_ := c; V2.Args := args |})
  else if decide (cmd = "/quit") then
    mret (Enqueue {| V2.ID := V2.CmdQuit; V2.Client_ := c; V2.Args := args |})
  else mret (Reply ("Error: " +:+ ("unknown command: " +:+ cmd) +:+ LF)).

(** [ReadInput]: line after line, each through a reader of its own, until a
    read fails.  [handle] is the body of the loop. *)
Fixpoint ReadInput_loop {Cmd} (handle : string → result (action Cmd))
    (fuel : nat) (input : list string) : option (result (list (action Cmd))) :=
  match fuel with
  | O => None
  | S fuel' =>
      match Bufio.ReadString GoStrings.NL input with
      | None => None
      | Some (_, true, _) => Some (Ok [])
      | Some (msg, false, input') =>
          match handle msg with
          | Panic p => Some (Panic p)
          | Ok a =>
              match ReadInput_loop handle fuel' input' with
              | Some (Ok rest) => Some (Ok (a :: rest))
              | other => other
              end
          end
      end
  end.

Definition V1_ReadInput (c : client_ref) (input : list string)
    : option (result (list (action V1.Command))) :=
  ReadInput_loop (V1_line c) (Bufio.pending input + 1) input.

Definition V2_ReadInput (c : client_ref) (input : list string)
    : option (result (list (action V2.Command))) :=
  ReadInput_loop (V2_line c) (Bufio.pending input + 1) input.

End ReadInput.

(** The commands among the actions, in order: what reaches the processor. *)
Definition enqueued {Cmd} (acts : list (action Cmd)) : list Cmd :=
  omap (λ a, match a with Enqueue cmd => Some cmd | Reply _ => None end) acts.

End Reader.

(** The turns of its loop [ReadString] needs at most, from a buffer [buf]
    and the bytes still to come: two for every byte, one to read it and one
    to copy a full buffer, and one to return. *)
Definition ReadString_steps (buf : string) (err : bool) (input : list string) : nat :=
  if err then 1
  else 2 * Bufio.pending input +
       (if decide (Bufio.defaultBufSize ≤ String.length buf) then 3 else 2).

(** ** A server's life: [main], [NewClient] and [Run] together

    [main] starts [Run] and then, for every connection it accepts, a
    [NewClient], which makes the client and reads its input; the commands
    of all readers reach [Run] one at a time over the unbuffered channel.
    What the server's state sees of this is a sequence of two kinds of
    steps. *)

Module Session.

Inductive step (Cmd : Type) : Type :=
| Accept (cn : conn)
| Handle (cmd : Cmd).
Global Arguments Accept {Cmd} cn.
Global Arguments Handle {Cmd} cmd.

Fixpoint V1_Serve (steps : list (step V1.Command)) (σ : V1.State) : result V1.State :=
  match steps with
  | [] => mret σ
  | Accept cn :: rest => V1_Serve rest (V1.NewClient cn σ).2
  | Handle cmd :: rest => σ' ← V1.dispatch cmd σ; V1_Serve rest σ'
  end.

Fixpoint V2_Serve (steps : list (step V2.Command)) (σ : V2.State) : result V2.State :=
  match steps with
  | [] => mret σ
  | Accept cn :: rest => V2_Serve rest (V2.NewClient cn σ).2
  | Handle cmd :: rest => σ' ← V2.dispatch cmd σ; V2_Serve rest σ'
  end.

End Session.

(** ** More scenarios *)

Module Cases.

(** Both join "A", then bob sends "m1" to "m7" to it. *)
Definition seven_messages_v2 : list V2.Command :=
  Scenario.both_in_A_v2 ++
  ((λ m, Scenario.cmd2 V2.CmdMsg 1 ["/msg"; "A"; m]%string) <$>
     ["m1"; "m2"; "m3"; "m4"; "m5"; "m6"; "m7"]%string).

(** Two clients connect and join "A"; a third connects, joins "A" and moves
    on to "B". *)
Definition three_clients_v1 : list (Session.step V1.Command) :=
  [Session.Accept 10; Session.Accept 11] ++
  (Session.Handle <$> Scenario.both_in_A_v1) ++
  [Session.Accept 12;
   Session.Handle (Scenario.cmd1 V1.CMD_JOIN 2 ["/join"; "A"]%string);
   Session.Handle (Scenario.cmd1 V1.CMD_JOIN 2 ["/join"; "B"]%string)].

End Cases.

(** ** Vocabulary for the invariants of the two processors *)

(** Whoever is filed in a room of variant 1 is filed under the address of
    its own connection and has its [Room] field on that room. *)
Definition V1_filed_once (σ : V1.State) : Prop :=
  ∀ r a m, V1.Members (V1.room σ r) !! a = Some m →
    V1.Room (V1.client σ m) = Some r ∧ RemoteAddr (V1.Conn (V1.client σ m)) = a.

(** Every registered room of variant 2 has a history buffer of
    [ChatRoomBufferSize] cells that holds some list of messages. *)
Definition V2_histories_ok (σ : V2.State) : Prop :=
  ∀ name r, V2.Rooms σ !! name = Some r →
    cb_size (V2.Messages (V2.room σ r)) = V2.ChatRoomBufferSize ∧
    ∃ l, represents (V2.Messages (V2.room σ r)) l.

(** The history buffer of every registered room of variant 2 satisfies [P]. *)
Definition V2_rooms_sat (P : CircularBuffer → Prop) (σ : V2.State) : Prop :=
  ∀ name r, V2.Rooms σ !! name = Some r → P (V2.Messages (V2.room σ r)).

(** * Proofs *)

(** ** Machine integers *)

Section int_facts.
Local Open Scope Z_scope.

Lemma int_wrap_small z : - 2 ^ 63 ≤ z < 2 ^ 63 → int_wrap z = z.
Proof.
  intros Hz. unfold int_wrap.
  rewrite Z.mod_small by lia. lia.
Qed.

Lemma int_add_small a b : - 2 ^ 63 ≤ a + b < 2 ^ 63 → int_add a b = a + b.
Proof. apply int_wrap_small. Qed.

Lemma int_rem_nonneg a b : 0 ≤ a → 0 < b → int_rem a b = Ok (a `mod` b).
Proof.
  intros Ha Hb. unfold int_rem.
  destruct (decide (b = 0)) as [->|_]; [lia|].
  by rewrite Z.rem_mod_nonneg by lia.
Qed.

Lemma mod_shift_ne n a d : 0 < n → 0 < d < n → (a + d) `mod` n ≠ a `mod` n.
Proof.
  intros Hn Hd Heq.
  assert (((a + d) - a) `mod` n = 0) as H0.
  { rewrite Zminus_mod, Heq, Z.sub_diag. by apply Z.mod_0_l; lia. }
  replace (a + d - a) with d in H0 by lia.
  rewrite Z.mod_small in H0 by lia. lia.
Qed.

Lemma mod_add_self n a : 0 < n → (a + n) `mod` n = a `mod` n.
Proof.
  intros Hn. rewrite <- (Z.mul_1_l n) at 1. apply Z.mod_add. lia.
Qed.

Lemma maxAlloc_int n : 0 ≤ n → n * sizeof_string ≤ maxAlloc → n < 2 ^ 45.
Proof. unfold sizeof_string, maxAlloc. lia. Qed.

End int_facts.

(** ** The history buffer *)

Section buffer_facts.
Local Open Scope Z_scope.

Lemma most_recent_all {A} (n : nat) (l : list A) :
  (length l ≤ n)%nat → most_recent n l = l.
Proof.
  intros Hl. unfold most_recent.
  replace (length l - n)%nat with 0%nat by lia. done.
Qed.

Lemma length_most_recent {A} (n : nat) (l : list A) :
  length (most_recent n l) = (n `min` length l)%nat.
Proof. unfold most_recent. rewrite length_drop. lia. Qed.

Lemma most_recent_app {A} (n : nat) (l k : list A) :
  most_recent n (most_recent n l ++ k) = most_recent n (l ++ k).
Proof.
  unfold most_recent.
  rewrite !length_app, length_drop.
  destruct (decide (length l ≤ n)%nat) as [Hle|Hgt].
  - replace (length l - n)%nat with 0%nat by lia.
    cbn [drop]. f_equal. lia.
  - rewrite <- (drop_app_le l k (length l - n)) by lia.
    rewrite drop_drop. f_equal. lia.
Qed.

Lemma represents_new n cb :
  0 < n → NewCircularBuffer n = Ok cb → represents cb [].
Proof.
  intros Hn. unfold NewCircularBuffer, make.
  destruct (decide _) as [[_ Hmax]|]; [|done].
  cbn. intros [= <-]. unfold represents, cb_bounds, cb_backed, slot. cbn.
  rewrite length_replicate, Z2Nat.id by lia.
  rewrite Z.mod_0_l by lia.
  split_and!; try done; lia.
Qed.

Lemma slot_lt cb i : 0 < cb_size cb → 0 ≤ cb_start cb →
  (Z.of_nat (slot cb i) < cb_size cb).
Proof.
  intros Hn Hs. unfold slot.
  rewrite Z2Nat.id; apply Z.mod_pos_bound; lia.
Qed.

Lemma Add_represents m cb l :
  represents cb l →
  ∃ cb', Add m cb = Ok cb' ∧ cb_size cb' = cb_size cb ∧
         represents cb' (most_recent (Z.to_nat (cb_size cb)) (l ++ [m])).
Proof.
  intros ((Hc & Hs & He) & (Hlen & Hmax) & Hl & Hend & Hcells).
  pose proof (maxAlloc_int (cb_size cb) ltac:(lia) Hmax) as Hbig.
  unfold Add, assign.
  destruct (decide (0 ≤ cb_end cb < _)) as [_|]; [|lia].
  cbn. rewrite (int_add_small (cb_end cb)) by lia.
  rewrite (int_rem_nonneg (cb_end cb + 1)) by lia. cbn.
  destruct (decide (cb_count cb = cb_size cb)) as [Hfull|Hroom].
  - (* full: the oldest message is overwritten *)
    rewrite (int_add_small (cb_start cb)) by lia.
    rewrite (int_rem_nonneg (cb_start cb + 1)) by lia. cbn.
    eexists; split; [done|]. split; [done|].
    assert (cb_end cb = cb_start cb) as Hes.
    { rewrite Hend, Hfull, mod_add_self by lia. apply Z.mod_small; lia. }
    assert (most_recent (Z.to_nat (cb_size cb)) (l ++ [m]) = drop 1 l ++ [m])
      as ->.
    { unfold most_recent. rewrite length_app. cbn [length].
      replace (length l + 1 - Z.to_nat (cb_size cb))%nat with 1%nat by lia.
      apply drop_app_le. lia. }
    unfold represents, cb_bounds, cb_backed, slot. cbn.
    rewrite length_insert, length_app, length_drop. cbn [length].
    pose proof (Z.mod_pos_bound (cb_end cb + 1) (cb_size cb) ltac:(lia)).
    pose proof (Z.mod_pos_bound (cb_start cb + 1) (cb_size cb) ltac:(lia)).
    split_and!; try lia.
    + by rewrite Hes, Hfull, Zplus_mod_idemp_l, mod_add_self by lia.
    + intros i x Hi.
      rewrite Zplus_mod_idemp_l.
      destruct (decide (i + 1 < length l)%nat) as [Hin|Hlast].
      * rewrite lookup_app_l in Hi by (rewrite length_drop; lia).
        rewrite lookup_drop in Hi.
        apply Hcells in Hi. unfold slot in Hi.
        rewrite list_lookup_insert_ne; last first.
        { intros Heq. apply Z2Nat.inj in Heq; [|lia|apply Z.mod_pos_bound; lia].
          rewrite Hes in Heq.
          apply (mod_shift_ne (cb_size cb) (cb_start cb) (1 + Z.of_nat i));
            [lia|lia|].
          rewrite (Z.mod_small (cb_start cb)) by lia.
          by rewrite Z.add_assoc. }
        rewrite <- Hi. do 2 f_equal. f_equal. lia.
      * assert (i = length l - 1)%nat as ->.
        { apply lookup_lt_Some in Hi.
          rewrite length_app, length_drop in Hi. cbn in Hi. lia. }
        rewrite lookup_app_r in Hi by (rewrite length_drop; lia).
        rewrite length_drop, Nat.sub_diag in Hi. injection Hi as <-.
        replace (cb_start cb + 1 + Z.of_nat (length l - 1))
          with (cb_start cb + cb_size cb) by lia.
        rewrite mod_add_self, Z.mod_small, Hes by lia.
        apply list_lookup_insert_eq. lia.
  - (* room left: the message goes after the newest *)
    rewrite (int_add_small (cb_count cb)) by lia.
    eexists; split; [done|]. split; [done|].
    rewrite most_recent_all by (rewrite length_app; cbn; lia).
    unfold represents, cb_bounds, cb_backed, slot. cbn.
    rewrite length_insert, length_app. cbn [length].
    pose proof (Z.mod_pos_bound (cb_end cb + 1) (cb_size cb) ltac:(lia)).
    split_and!; try lia.
    + rewrite Hend, Zplus_mod_idemp_l. f_equal. lia.
    + intros i x Hi.
      destruct (decide (i < length l)%nat) as [Hin|Hlast].
      * rewrite lookup_app_l in Hi by done.
        apply Hcells in Hi. unfold slot in Hi.
        rewrite list_lookup_insert_ne; [done|].
        intros Heq. apply Z2Nat.inj in Heq; [|lia|apply Z.mod_pos_bound; lia].
        rewrite Hend in Heq.
        apply (mod_shift_ne (cb_size cb) (cb_start cb + Z.of_nat i)
                 (cb_count cb - Z.of_nat i)); [lia|lia|].
        rewrite <- Heq. f_equal. lia.
      * assert (i = length l) as ->.
        { apply lookup_lt_Some in Hi. rewrite length_app in Hi. cbn in Hi. lia. }
        rewrite lookup_app_r, Nat.sub_diag in Hi by lia. injection Hi as <-.
        rewrite Hl, <- Hend.
        apply list_lookup_insert_eq. lia.
Qed.

Lemma GetAll_loop_represents cb l :
  represents cb l →
  ∀ (n i : nat) (res : list string),
    (i + n = length l)%nat → length res = length l →
    GetAll_loop cb n (Z.of_nat i) res = Ok (take i res ++ take n (drop i l)).
Proof.
  intros ((Hc & Hs & He) & (Hlen & Hmax) & Hl & Hend & Hcells).
  pose proof (maxAlloc_int (cb_size cb) ltac:(lia) Hmax) as Hbig.
  induction n as [|n IH]; intros i res Hin Hres.
  - cbn. by rewrite app_nil_r, take_ge by lia.
  - destruct (lookup_lt_is_Some_2 l i ltac:(lia)) as [x Hx].
    cbn [GetAll_loop].
    rewrite (int_add_small (cb_start cb)) by lia.
    rewrite (int_rem_nonneg (cb_start cb + Z.of_nat i)) by lia. cbn.
    unfold index. destruct (decide _) as [_|Hneg];
      [|by destruct Hneg; apply Z.mod_pos_bound; lia].
    fold (slot cb i). rewrite (Hcells _ _ Hx). cbn.
    unfold assign. destruct (decide _) as [_|]; [|lia]. cbn.
    rewrite (int_add_small (Z.of_nat i)) by lia.
    replace (Z.of_nat i + 1) with (Z.of_nat (S i)) by lia.
    rewrite Nat2Z.id, IH by (rewrite ?length_insert; lia).
    f_equal.
    rewrite (take_S_r _ i x) by (apply list_lookup_insert_eq; lia).
    rewrite take_insert_ge by done.
    rewrite (drop_S l x i) by done.
    by rewrite <- app_assoc.
Qed.

Lemma GetAll_represents cb l : represents cb l → GetAll cb = Ok l.
Proof.
  intros Hrep.
  pose proof Hrep as ((Hc & _) & (_ & Hmax) & Hl & _).
  unfold GetAll, make.
  destruct (decide _) as [_|Hbad].
  - cbn. rewrite <- Hl, Nat2Z.id.
    rewrite (GetAll_loop_represents cb l Hrep (length l) 0 _ eq_refl)
      by apply length_replicate.
    by rewrite take_0, drop_0, firstn_all.
  - destruct Hbad. unfold sizeof_string in *. lia.
Qed.

Lemma AddAll_represents msgs : ∀ cb l,
  represents cb l →
  ∃ cb', AddAll msgs cb = Ok cb' ∧ cb_size cb' = cb_size cb ∧
         represents cb' (most_recent (Z.to_nat (cb_size cb)) (l ++ msgs)).
Proof.
  induction msgs as [|m msgs IH]; intros cb l Hrep.
  - exists cb. split; [done|]. split; [done|].
    rewrite app_nil_r, most_recent_all; [done|].
    destruct Hrep as ((Hc & _) & _ & Hl & _). lia.
  - destruct (Add_represents m cb l Hrep) as (cb1 & Hadd & Hsz & Hrep1).
    destruct (IH _ _ Hrep1) as (cb' & Hall & Hsz' & Hrep').
    exists cb'. cbn. rewrite Hadd. cbn.
    split; [done|]. split; [congruence|].
    rewrite Hsz, most_recent_app, <- app_assoc in Hrep'. done.
Qed.

(** Inside the bounds neither operation panics, whatever the cells hold. *)
Lemma Add_bounds m cb :
  cb_bounds cb → cb_backed cb →
  ∃ cb', Add m cb = Ok cb' ∧ cb_bounds cb' ∧ cb_backed cb'.
Proof.
  intros (Hc & Hs & He) (Hlen & Hmax).
  pose proof (maxAlloc_int (cb_size cb) ltac:(lia) Hmax) as Hbig.
  pose proof (Z.mod_pos_bound (cb_end cb + 1) (cb_size cb) ltac:(lia)).
  pose proof (Z.mod_pos_bound (cb_start cb + 1) (cb_size cb) ltac:(lia)).
  unfold Add, assign.
  destruct (decide (0 ≤ cb_end cb < _)) as [_|]; [|lia].
  cbn. rewrite (int_add_small (cb_end cb)) by lia.
  rewrite (int_rem_nonneg (cb_end cb + 1)) by lia. cbn.
  destruct (decide (cb_count cb = cb_size cb)) as [Hfull|Hroom].
  - rewrite (int_add_small (cb_start cb)) by lia.
    rewrite (int_rem_nonneg (cb_start cb + 1)) by lia. cbn.
    eexists; split; [done|].
    unfold cb_bounds, cb_backed. cbn. rewrite length_insert. lia.
  - rewrite (int_add_small (cb_count cb)) by lia.
    eexists; split; [done|].
    unfold cb_bounds, cb_backed. cbn. rewrite length_insert. lia.
Qed.

Lemma GetAll_loop_total cb :
  cb_bounds cb → cb_backed cb →
  ∀ (n i : nat) (res : list string),
    Z.of_nat (i + n) ≤ cb_count cb → Z.of_nat (length res) = cb_count cb →
    ∃ l, GetAll_loop cb n (Z.of_nat i) res = Ok l.
Proof.
  intros (Hc & Hs & He) (Hlen & Hmax).
  pose proof (maxAlloc_int (cb_size cb) ltac:(lia) Hmax) as Hbig.
  induction n as [|n IH]; intros i res Hin Hres.
  - by exists res.
  - cbn [GetAll_loop].
    rewrite (int_add_small (cb_start cb)) by lia.
    rewrite (int_rem_nonneg (cb_start cb + Z.of_nat i)) by lia. cbn.
    pose proof (Z.mod_pos_bound (cb_start cb + Z.of_nat i) (cb_size cb) ltac:(lia)).
    unfold index. destruct (decide _) as [_|]; [|lia].
    destruct (lookup_lt_is_Some_2 (cb_messages cb)
                (Z.to_nat ((cb_start cb + Z.of_nat i) `mod` cb_size cb))
                ltac:(lia)) as [x ->].
    cbn. unfold assign. destruct (decide _) as [_|]; [|lia]. cbn.
    rewrite (int_add_small (Z.of_nat i)) by lia.
    replace (Z.of_nat i + 1) with (Z.of_nat (S i)) by lia.
    apply IH; rewrite ?length_insert; lia.
Qed.

Lemma GetAll_total cb : cb_bounds cb → cb_backed cb → ∃ l, GetAll cb = Ok l.
Proof.
  intros Hb Hk. pose proof Hb as (Hc & _). pose proof Hk as (_ & Hmax).
  unfold GetAll, make.
  destruct (decide _) as [_|Hbad].
  - cbn. apply (GetAll_loop_total cb Hb Hk _ 0); [lia|].
    rewrite length_replicate. lia.
  - destruct Hbad. unfold sizeof_string in *. lia.
Qed.

Lemma represents_bounds cb l : represents cb l → cb_bounds cb.
Proof. by intros (? & _). Qed.

End buffer_facts.

(** ** What a connection receives *)

Section wire_facts.

Lemma received_app c w1 w2 : received c (w1 ++ w2) = received c w1 ++ received c w2.
Proof.
  induction w1 as [|[c' d|c'] w1 IH]; cbn; [done| |done].
  destruct (decide (c' = c)); cbn; by rewrite IH.
Qed.

(** One line written to each connection of a duplicate-free list reaches
    a connection once if it is listed and not at all otherwise. *)
Lemma received_notices c line (cs : list conn) :
  NoDup cs →
  received c ((λ cn, Write cn line) <$> cs) = if decide (c ∈ cs) then [line] else [].
Proof.
  induction 1 as [|c' cs Hnotin Hnd IH]; cbn.
  - by rewrite decide_False by apply not_elem_of_nil.
  - destruct (decide (c' = c)) as [->|Hne].
    + rewrite decide_True by apply list_elem_of_here. f_equal.
      rewrite IH. by rewrite decide_False.
    + rewrite IH. destruct (decide (c ∈ cs)) as [Hin|Hnin].
      * by rewrite decide_True by by apply list_elem_of_further.
      * rewrite decide_False; [done|].
        intros [->|?]%elem_of_cons; done.
Qed.

End wire_facts.


(** ** Variant 2: broadcasts *)

Section v2_facts.

Lemma V2_emit_fold {X} (f : V2.State → X → V2.State)
    (ev : gmap client_ref V2.Client → X → event) (l : list X) : ∀ σ,
  (∀ σ' x, f σ' x = V2.emit (ev (V2.clients σ') x) σ') →
  foldl f σ l =
  {| V2.Rooms := V2.Rooms σ; V2.rooms := V2.rooms σ; V2.clients := V2.clients σ;
     V2.wire := V2.wire σ ++ (ev (V2.clients σ) <$> l) |}.
Proof.
  induction l as [|x l IH]; intros σ Hf; cbn.
  - rewrite app_nil_r. by destruct σ.
  - rewrite IH, Hf by done. cbn. by rewrite <- app_assoc.
Qed.

Lemma V2_broadcastMessage_eq r msg σ :
  V2.broadcastMessage r msg σ =
  {| V2.Rooms := V2.Rooms σ; V2.rooms := V2.rooms σ; V2.clients := V2.clients σ;
     V2.wire := V2.wire σ ++
       notices (V2_conns σ (V2.Clients (V2.room σ r))) (msg +:+ LF) |}.
Proof.
  unfold V2.broadcastMessage, notices, V2_conns.
  rewrite <- list_fmap_compose.
  by rewrite (V2_emit_fold _
    (λ cl (p : conn * client_ref), Write (V2.Conn (cl !!! p.2)) (msg +:+ LF)))
    by by intros σ' [k m].
Qed.

Lemma V2_replay_eq cn msgs σ :
  V2.replay cn msgs σ =
  {| V2.Rooms := V2.Rooms σ; V2.rooms := V2.rooms σ; V2.clients := V2.clients σ;
     V2.wire := V2.wire σ ++ ((λ m, Write cn (m +:+ LF)) <$> msgs) |}.
Proof.
  unfold V2.replay.
  by rewrite (V2_emit_fold _ (λ _ m, Write cn (m +:+ LF))).
Qed.

Lemma V2_conns_keyed σ M : V2_keyed σ M → V2_conns σ M = (map_to_list M).*1.
Proof.
  intros Hk. unfold V2_conns. apply Forall_fmap_ext_1, Forall_forall.
  intros [k m] Hin%elem_of_map_to_list. by apply Hk.
Qed.

Lemma elem_of_map_keys `{Countable K} {A} (M : gmap K A) (k : K) :
  k ∈ (map_to_list M).*1 ↔ is_Some (M !! k).
Proof.
  rewrite list_elem_of_fmap. split.
  - intros ([k' m] & -> & Hin%elem_of_map_to_list). by exists m.
  - intros [m Hm]. exists (k, m). by rewrite elem_of_map_to_list.
Qed.

(** A broadcast of variant 2 reaches every connection filed in the room,
    the sender's too. *)
Lemma V2_broadcast_received r msg σ cn :
  V2_keyed σ (V2.Clients (V2.room σ r)) →
  received cn (V2.wire (V2.broadcastMessage r msg σ)) =
  received cn (V2.wire σ) ++
  (if decide (is_Some (V2.Clients (V2.room σ r) !! cn)) then [msg +:+ LF] else []).
Proof.
  intros Hk. rewrite V2_broadcastMessage_eq. cbn.
  rewrite received_app, V2_conns_keyed by done. f_equal.
  unfold notices. rewrite received_notices by apply NoDup_fst_map_to_list.
  destruct (decide (cn ∈ _)) as [Hin|Hnin], (decide (is_Some _)) as [Hs|Hn];
    try done; by rewrite elem_of_map_keys in *.
Qed.

End v2_facts.

(** ** Variant 1: broadcasts *)

Section v1_facts.

Lemma V1_broadcast_fold (l : list (addr * client_ref)) (s : client_ref) msg : ∀ σ,
  foldl (λ σ' '(a, m),
           if decide (a ≠ RemoteAddr (V1.Conn (V1.client σ' s)))
           then V1.Client_Message m msg σ' else σ') σ l =
  {| V1.Rooms := V1.Rooms σ; V1.rooms := V1.rooms σ; V1.clients := V1.clients σ;
     V1.wire := V1.wire σ ++
       ((λ p, Write (V1.Conn (V1.client σ p.2)) ("> " +:+ msg +:+ LF)) <$>
        filter (λ p, p.1 ≠ RemoteAddr (V1.Conn (V1.client σ s))) l) |}.
Proof.
  induction l as [|[a m] l IH]; intros σ; cbn.
  - rewrite app_nil_r. by destruct σ.
  - destruct (decide (a ≠ _)) as [Hne|Heq]; rewrite IH; cbn; [|done].
    by rewrite <- app_assoc.
Qed.

Lemma V1_Room_Broadcast_eq r s msg σ :
  V1.Room_Broadcast r s msg σ =
  {| V1.Rooms := V1.Rooms σ; V1.rooms := V1.rooms σ; V1.clients := V1.clients σ;
     V1.wire := V1.wire σ ++
       ((λ p, Write (V1.Conn (V1.client σ p.2)) ("> " +:+ msg +:+ LF)) <$>
        filter (λ p, p.1 ≠ RemoteAddr (V1.Conn (V1.client σ s)))
               (map_to_list (V1.Members (V1.room σ r)))) |}.
Proof. apply V1_broadcast_fold. Qed.

(** A broadcast of variant 1 reaches every member once, except the one
    filed under the sender's address. *)
Lemma V1_broadcast_received r s msg σ cn :
  V1_keyed σ (V1.Members (V1.room σ r)) →
  received cn (V1.wire (V1.Room_Broadcast r s msg σ)) =
  received cn (V1.wire σ) ++
  (if decide (is_Some (V1.Members (V1.room σ r) !! RemoteAddr cn) ∧
              RemoteAddr cn ≠ RemoteAddr (V1.Conn (V1.client σ s)))
   then ["> " +:+ msg +:+ LF] else []).
Proof.
  intros Hk. rewrite V1_Room_Broadcast_eq. cbn.
  rewrite received_app. f_equal.
  set (P := λ p : addr * client_ref, p.1 ≠ RemoteAddr (V1.Conn (V1.client σ s))).
  set (l := map_to_list (V1.Members (V1.room σ r))).
  assert ((λ p : addr * client_ref,
             Write (V1.Conn (V1.client σ p.2)) ("> " +:+ msg +:+ LF)) <$> filter P l
          = (λ cn', Write cn' ("> " +:+ msg +:+ LF)) <$> (filter P l).*1) as ->.
  { rewrite <- list_fmap_compose. apply Forall_fmap_ext_1, Forall_forall.
    intros [a m] [_ Hin%elem_of_map_to_list]%list_elem_of_filter. cbn.
    f_equal. by apply Hk. }
  rewrite received_notices; last first.
  { eapply sublist_NoDup; [apply (NoDup_fst_map_to_list (V1.Members (V1.room σ r)))|].
    apply fmap_sublist, sublist_filter. }
  unfold RemoteAddr at 1 2.
  assert (cn ∈ (filter P l).*1 ↔
          is_Some (V1.Members (V1.room σ r) !! cn) ∧
          cn ≠ RemoteAddr (V1.Conn (V1.client σ s))) as Hiff.
  { rewrite list_elem_of_fmap. split.
    - intros ([a m] & -> & [HP Hin%elem_of_map_to_list]%list_elem_of_filter).
      split; [by exists m|done].
    - intros [[m Hm] Hne]. exists (cn, m). split; [done|].
      apply list_elem_of_filter. split; [done|]. by apply elem_of_map_to_list. }
  destruct (decide (cn ∈ _)) as [Hin|Hnin], (decide (_ ∧ _)) as [Hs|Hn];
    try done; by rewrite Hiff in *.
Qed.

End v1_facts.

(** ** Variant 2: reading and writing the state *)

Lemma bind_Ok {A B} (x : A) (f : A → result B) : (Ok x ≫= f) = f x.
Proof. done. Qed.

Lemma index_lookup {A} (l : list A) (i : nat) (x : A) :
  l !! i = Some x → index l (Z.of_nat i) = Ok x.
Proof.
  intros Hl. unfold index.
  destruct (decide _) as [_|]; [|lia]. by rewrite Nat2Z.id, Hl.
Qed.

Lemma slice_from_le {A} (l : list A) (k : nat) :
  k ≤ length l → slice_from l k = Ok (drop k l).
Proof. intros Hk. unfold slice_from. by rewrite decide_True. Qed.

Lemma V2_room_set_room_eq r v σ : V2.room (V2.set_room r v σ) r = v.
Proof. unfold V2.room, V2.set_room. cbn. apply lookup_total_insert_eq. Qed.

Lemma V2_room_set_room_ne r r' v σ :
  r ≠ r' → V2.room (V2.set_room r v σ) r' = V2.room σ r'.
Proof. intros. unfold V2.room, V2.set_room. cbn. by apply lookup_total_insert_ne. Qed.

Lemma V2_client_set_room r v σ c : V2.client (V2.set_room r v σ) c = V2.client σ c.
Proof. done. Qed.

Lemma V2_room_set_client c v σ r : V2.room (V2.set_client c v σ) r = V2.room σ r.
Proof. done. Qed.

Lemma V2_client_set_client_eq c v σ : V2.client (V2.set_client c v σ) c = v.
Proof. unfold V2.client, V2.set_client. cbn. apply lookup_total_insert_eq. Qed.

Lemma V2_client_set_client_ne c c' v σ :
  c ≠ c' → V2.client (V2.set_client c v σ) c' = V2.client σ c'.
Proof. intros. unfold V2.client, V2.set_client. cbn. by apply lookup_total_insert_ne. Qed.

Lemma V2_client_emit e σ c : V2.client (V2.emit e σ) c = V2.client σ c.
Proof. done. Qed.

Lemma V2_room_emit e σ r : V2.room (V2.emit e σ) r = V2.room σ r.
Proof. done. Qed.

Lemma V2_client_same σ σ' c :
  V2.clients σ' = V2.clients σ → V2.client σ' c = V2.client σ c.
Proof. unfold V2.client. by intros ->. Qed.

Lemma V2_conns_same σ σ' M :
  V2.clients σ' = V2.clients σ → V2_conns σ' M = V2_conns σ M.
Proof. unfold V2_conns, V2.client. by intros ->. Qed.

Lemma V2_client_broadcast r msg σ c :
  V2.client (V2.broadcastMessage r msg σ) c = V2.client σ c.
Proof. by rewrite V2_broadcastMessage_eq. Qed.

Lemma V2_room_broadcast r msg σ r' :
  V2.room (V2.broadcastMessage r msg σ) r' = V2.room σ r'.
Proof. by rewrite V2_broadcastMessage_eq. Qed.

Lemma V2_Rooms_broadcast r msg σ :
  V2.Rooms (V2.broadcastMessage r msg σ) = V2.Rooms σ.
Proof. by rewrite V2_broadcastMessage_eq. Qed.

Lemma V2_clients_broadcast r msg σ :
  V2.clients (V2.broadcastMessage r msg σ) = V2.clients σ.
Proof. by rewrite V2_broadcastMessage_eq. Qed.

Lemma V2_wire_broadcast r msg σ :
  V2.wire (V2.broadcastMessage r msg σ) =
  V2.wire σ ++ notices (V2_conns σ (V2.Clients (V2.room σ r))) (line msg).
Proof. by rewrite V2_broadcastMessage_eq. Qed.

Lemma V2_client_replay cn msgs σ c :
  V2.client (V2.replay cn msgs σ) c = V2.client σ c.
Proof. by rewrite V2_replay_eq. Qed.

Lemma V2_room_replay cn msgs σ r :
  V2.room (V2.replay cn msgs σ) r = V2.room σ r.
Proof. by rewrite V2_replay_eq. Qed.

Lemma V2_Rooms_replay cn msgs σ : V2.Rooms (V2.replay cn msgs σ) = V2.Rooms σ.
Proof. by rewrite V2_replay_eq. Qed.

Lemma V2_clients_replay cn msgs σ : V2.clients (V2.replay cn msgs σ) = V2.clients σ.
Proof. by rewrite V2_replay_eq. Qed.

Lemma V2_wire_replay cn msgs σ :
  V2.wire (V2.replay cn msgs σ) =
  V2.wire σ ++ ((λ m, Write cn (line m)) <$> msgs).
Proof. by rewrite V2_replay_eq. Qed.

Create Rewrite HintDb v2.
#[global] Hint Rewrite V2_client_set_room V2_room_set_client V2_client_set_client_eq
  V2_room_set_room_eq V2_client_emit V2_room_emit
  V2_client_broadcast V2_room_broadcast V2_Rooms_broadcast V2_wire_broadcast
  V2_client_replay V2_room_replay V2_Rooms_replay V2_wire_replay : v2.

Lemma V2_buffers_ok_same σ σ' :
  V2.Rooms σ' = V2.Rooms σ → V2.rooms σ' = V2.rooms σ →
  V2_buffers_ok σ → V2_buffers_ok σ'.
Proof.
  intros HR Hr Hok name r. unfold V2.room. rewrite HR, Hr. apply Hok.
Qed.

Lemma V2_buffers_ok_set_room σ r v :
  cb_bounds (V2.Messages v) ∧ cb_backed (V2.Messages v) →
  V2_buffers_ok σ → V2_buffers_ok (V2.set_room r v σ).
Proof.
  intros Hv Hok name r' Hname.
  destruct (decide (r = r')) as [<-|Hne].
  - by rewrite V2_room_set_room_eq.
  - rewrite V2_room_set_room_ne by done. by apply (Hok name).
Qed.

Lemma V2_buffers_ok_new_room σ name r v :
  cb_bounds (V2.Messages v) ∧ cb_backed (V2.Messages v) →
  V2_buffers_ok σ →
  V2_buffers_ok (V2.set_Rooms (<[name := r]> (V2.Rooms σ)) (V2.set_room r v σ)).
Proof.
  intros Hv Hok name' r' Hname. cbn in Hname.
  change (V2.room (V2.set_Rooms _ ?τ) r') with (V2.room τ r').
  destruct (decide (r = r')) as [<-|Hne].
  - by rewrite V2_room_set_room_eq.
  - rewrite V2_room_set_room_ne by done.
    apply lookup_insert_Some in Hname as [[_ ?]|[_ Hname]]; [done|].
    by apply (Hok name').
Qed.

Lemma NewRoom_ok name :
  ∃ v, V2.NewRoom name V2.ChatRoomBufferSize = Ok v ∧
       V2.Name v = name ∧ V2.Clients v = ∅ ∧
       V2.Messages v = Scenario.empty5 ∧
       cb_bounds (V2.Messages v) ∧ cb_backed (V2.Messages v).
Proof.
  eexists. split; [reflexivity|]. cbn.
  split_and!; try done; unfold cb_bounds, cb_backed; cbn; lia.
Qed.

(** The state [Join] works on once the room is looked up or created. *)
Lemma V2_Join_lookup σ roomName :
  V2_buffers_ok σ →
  ∃ r σ1,
    match V2.Rooms σ !! roomName with
    | Some r => mret (r, σ)
    | None =>
        v ← V2.NewRoom roomName V2.ChatRoomBufferSize;
        mret (fresh (dom (V2.rooms σ)),
              V2.set_Rooms (<[roomName := fresh (dom (V2.rooms σ))]> (V2.Rooms σ))
                (V2.set_room (fresh (dom (V2.rooms σ))) v σ))
    end = Ok (r, σ1) ∧
    V2_buffers_ok σ1 ∧
    V2.Rooms σ1 !! roomName = Some r ∧
    V2.clients σ1 = V2.clients σ ∧ V2.wire σ1 = V2.wire σ ∧
    match V2.Rooms σ !! roomName with
    | Some _ => σ1 = σ
    | None => V2.Messages (V2.room σ1 r) = Scenario.empty5
    end.
Proof.
  intros Hok. destruct (V2.Rooms σ !! roomName) as [r|] eqn:Hr.
  - by exists r, σ.
  - destruct (NewRoom_ok roomName) as (v & -> & _ & _ & Hbuf & Hv).
    eexists _, _. split; [done|]. split_and!.
    + by apply V2_buffers_ok_new_room.
    + cbn. apply lookup_insert_eq.
    + done.
    + done.
    + change (V2.room (V2.set_Rooms _ ?τ) ?r) with (V2.room τ r).
      by rewrite V2_room_set_room_eq.
Qed.


(** ** Variant 2: no handler panics *)

Lemma V2_buffers_ok_set_room_same σ r v :
  V2.Messages v = V2.Messages (V2.room σ r) →
  V2_buffers_ok σ → V2_buffers_ok (V2.set_room r v σ).
Proof.
  intros Hv Hok name r' Hname.
  destruct (decide (r = r')) as [<-|Hne].
  - rewrite V2_room_set_room_eq, Hv. by apply (Hok name).
  - rewrite V2_room_set_room_ne by done. by apply (Hok name).
Qed.

Lemma V2_Join_spec (σ : V2.State) (c : client_ref)
    (args : list string) (roomName : string) :
  args !! 1 = Some roomName →
  V2_buffers_ok σ →
  ∃ σ' history r,
    V2.Server_Join c args σ = Ok σ' ∧
    V2_history σ roomName = Ok history ∧
    V2.Rooms σ' !! roomName = Some r ∧
    V2.Clients (V2.room σ' r) !! V2.Conn (V2.client σ c) = Some c ∧
    V2.wire σ' =
      V2.wire σ ++
      ((λ m, Write (V2.Conn (V2.client σ c)) (line m)) <$> history) ++
      notices (V2_conns σ' (V2.Clients (V2.room σ' r)))
              (line (V2.NickName (V2.client σ c) +:+ " joined the room")) ∧
    V2_buffers_ok σ'.
Proof.
  intros Hname Hok.
  pose proof (lookup_lt_Some _ _ _ Hname) as Hlen.
  unfold V2.Server_Join.
  rewrite decide_False by lia.
  rewrite (index_lookup args 1 roomName Hname : index args 1 = Ok roomName).
  rewrite bind_Ok.
  destruct (V2_Join_lookup σ roomName Hok)
    as (r & σ1 & -> & Hok1 & Hr1 & Hcl1 & Hw1 & Hcase).
  rewrite bind_Ok.
  autorewrite with v2. cbn [V2.Conn V2.NickName V2.Room V2.Messages V2.Clients V2.Name].
  destruct (GetAll_total (V2.Messages (V2.room σ1 r))) as [history Hget];
    [by apply (Hok1 roomName)..|].
  rewrite Hget, bind_Ok.
  rewrite (V2_client_same σ σ1 c Hcl1) in *.
  eexists _, history, r. split; [reflexivity|].
  split_and!.
  - unfold V2_history. destruct (V2.Rooms σ !! roomName) as [r'|] eqn:Hr.
    + subst σ1. by simplify_eq.
    + rewrite Hcase in Hget. by injection Hget as <-.
  - by autorewrite with v2.
  - autorewrite with v2. cbn. apply lookup_insert_eq.
  - autorewrite with v2. cbn [V2.wire V2.set_client V2.set_room V2.Clients].
    rewrite Hw1, <- app_assoc. do 2 f_equal.
    f_equal. apply V2_conns_same.
    by rewrite V2_clients_broadcast, V2_clients_replay.
  - eapply V2_buffers_ok_same;
      [apply V2_Rooms_broadcast | by rewrite V2_broadcastMessage_eq |].
    eapply V2_buffers_ok_same;
      [apply V2_Rooms_replay | by rewrite V2_replay_eq |].
    eapply V2_buffers_ok_same; [done | done |].
    by apply V2_buffers_ok_set_room_same.
Qed.

Lemma V2_NickName_total σ c args :
  V2_buffers_ok σ →
  ∃ σ', V2.Server_NickName c args σ = Ok σ' ∧ V2_buffers_ok σ'.
Proof.
  intros Hok. unfold V2.Server_NickName.
  destruct (decide (length args < 2)) as [Hshort|Hlong].
  - eexists. split; [done|]. by eapply V2_buffers_ok_same.
  - destruct args as [|a [|name args]]; cbn in Hlong; [lia..|].
    eexists. split; [done|]. by eapply V2_buffers_ok_same.
Qed.

Lemma V2_ListRooms_total σ c args :
  V2_buffers_ok σ →
  ∃ σ', V2.Server_ListRooms c args σ = Ok σ' ∧ V2_buffers_ok σ'.
Proof.
  intros Hok. eexists. split; [done|]. by eapply V2_buffers_ok_same.
Qed.

Lemma V2_Join_total σ c args :
  V2_buffers_ok σ →
  ∃ σ', V2.Server_Join c args σ = Ok σ' ∧ V2_buffers_ok σ'.
Proof.
  intros Hok.
  destruct (decide (length args < 2)) as [Hshort|Hlong].
  - unfold V2.Server_Join. rewrite decide_True by done.
    eexists. split; [done|]. by eapply V2_buffers_ok_same.
  - destruct (lookup_lt_is_Some_2 args 1 ltac:(lia)) as [roomName Hname].
    destruct (V2_Join_spec σ c args roomName Hname Hok)
      as (σ' & _ & _ & -> & _ & _ & _ & _ & Hok').
    by exists σ'.
Qed.

Lemma V2_Message_total σ c args :
  V2_buffers_ok σ →
  ∃ σ', V2.Server_Message c args σ = Ok σ' ∧ V2_buffers_ok σ'.
Proof.
  intros Hok. unfold V2.Server_Message.
  destruct (decide (length args < 2)) as [Hshort|Hlong].
  - eexists. split; [done|]. by eapply V2_buffers_ok_same.
  - destruct (lookup_lt_is_Some_2 args 1 ltac:(lia)) as [roomName Hname].
    rewrite (index_lookup args 1 roomName Hname : index args 1 = Ok roomName).
    rewrite bind_Ok, slice_from_le, bind_Ok by lia.
    destruct (V2.Rooms σ !! roomName) as [r|] eqn:Hr.
    + destruct (Add_bounds
                  (V2.NickName (V2.client σ c) +:+ ": " +:+ Join (drop 2 args) " ")
                  (V2.Messages (V2.room σ r)))
        as (buf & -> & Hbuf); [by apply (Hok roomName)..|].
      rewrite bind_Ok. eexists. split; [done|].
      eapply V2_buffers_ok_same;
        [apply V2_Rooms_broadcast | by rewrite V2_broadcastMessage_eq |].
      by apply V2_buffers_ok_set_room.
    + eexists. split; [done|]. by eapply V2_buffers_ok_same.
Qed.

Lemma V2_Quit_total σ c args :
  V2_buffers_ok σ →
  ∃ σ', V2.Server_Quit c args σ = Ok σ' ∧ V2_buffers_ok σ'.
Proof.
  intros Hok. unfold V2.Server_Quit.
  eexists. split; [done|].
  eapply V2_buffers_ok_same; [done..|].
  destruct (V2.Room (V2.client σ c)) as [r|]; [|done].
  eapply V2_buffers_ok_same; [done | done |].
  eapply V2_buffers_ok_same;
    [apply V2_Rooms_broadcast | by rewrite V2_broadcastMessage_eq |].
  by apply V2_buffers_ok_set_room_same.
Qed.

Lemma V2_dispatch_total σ cmd :
  V2_buffers_ok σ →
  ∃ σ', V2.dispatch cmd σ = Ok σ' ∧ V2_buffers_ok σ'.
Proof.
  intros Hok. unfold V2.dispatch.
  repeat case_decide;
    eauto using V2_NickName_total, V2_ListRooms_total, V2_Join_total,
                V2_Message_total, V2_Quit_total.
Qed.

(** The processor of variant 2 gets through any queue of commands. *)
Lemma V2_Run_total cmds : ∀ σ,
  V2_buffers_ok σ →
  ∃ σ', V2.Run cmds σ = Ok σ' ∧ V2_buffers_ok σ'.
Proof.
  induction cmds as [|cmd cmds IH]; intros σ Hok.
  - by exists σ.
  - destruct (V2_dispatch_total σ cmd Hok) as (σ1 & Hd & Hok1).
    cbn. rewrite Hd, bind_Ok. by apply IH.
Qed.

Lemma V2_NewServer_ok : V2_buffers_ok V2.NewServer.
Proof. intros name r Hname. cbn in Hname. by rewrite lookup_empty in Hname. Qed.

(** ** Variant 1: handlers that panic *)

Lemma V1_NickName_short σ c args :
  length args < 2 → V1.Server_NickName c args σ = Panic IndexOutOfRange.
Proof. intros Hlen. by destruct args as [|a [|b args]]; [..|cbn in Hlen; lia]. Qed.

Lemma V1_Join_short σ c args :
  length args < 2 → V1.Server_Join c args σ = Panic IndexOutOfRange.
Proof. intros Hlen. by destruct args as [|a [|b args]]; [..|cbn in Hlen; lia]. Qed.

Lemma V1_Message_no_room σ c cmd text :
  V1.Room (V1.client σ c) = None →
  V1.Server_Message c (cmd :: text) σ = Panic NilDereference.
Proof.
  intros Hnone. unfold V1.Server_Message. rewrite Hnone. cbn.
  change (V1.client (V1.Client_Error ?c ?e ?τ) ?c') with (V1.client τ c').
  by rewrite Hnone.
Qed.

(** ** Variant 2: setting the nickname *)

(** [Server.NickName] of variant 2, both cases. *)
Lemma V2_NickName_spec σ c args :
  V2.Server_NickName c args σ =
  match args !! 1 with
  | None =>
      Ok (V2.emit (Write (V2.Conn (V2.client σ c))
                     (line "Error: nickname is required. usage: /name NEW_NICKNAME")) σ)
  | Some name =>
      Ok (V2.emit (Write (V2.Conn (V2.client σ c)) (line ("Nickname changed to: " +:+ name)))
            (V2.set_client c {| V2.Conn := V2.Conn (V2.client σ c);
                                V2.NickName := name;
                                V2.Room := V2.Room (V2.client σ c) |} σ))
  end.
Proof.
  unfold V2.Server_NickName.
  destruct args as [|a [|name args]]; [done..|].
  rewrite decide_False by (cbn; lia).
  rewrite (index_lookup (a :: name :: args) 1 name eq_refl : index _ 1 = Ok name).
  by rewrite bind_Ok, V2_client_set_client_eq.
Qed.

(** ** Variant 2: a message without text *)

(** With a room name and nothing after it [Server.Message] goes on to the
    history and the broadcast, in any state that has the room. *)
Lemma V2_Message_without_text σ c cmd roomName r :
  V2.Rooms σ !! roomName = Some r →
  V2.Server_Message c [cmd; roomName] σ =
  (buf ← Add (V2.NickName (V2.client σ c) +:+ ": ") (V2.Messages (V2.room σ r));
   mret (V2.broadcastMessage r (V2.NickName (V2.client σ c) +:+ ": ")
           (V2.set_room r {| V2.Name := V2.Name (V2.room σ r);
                             V2.Clients := V2.Clients (V2.room σ r);
                             V2.Messages := buf |} σ))).
Proof.
  intros Hr. unfold V2.Server_Message.
  rewrite decide_False by (cbn; lia).
  rewrite (index_lookup [cmd; roomName] 1 roomName eq_refl
             : index _ 1 = Ok roomName), bind_Ok.
  rewrite slice_from_le, bind_Ok by (cbn; lia).
  by rewrite Hr.
Qed.

(** ** Variant 1: leaving the current room *)

Lemma filter_all {A} (P : A → Prop) `{∀ x, Decision (P x)} (l : list A) :
  Forall P l → filter P l = l.
Proof.
  induction 1 as [|x l Hx Hl IH]; [done|].
  by rewrite filter_cons_True, IH.
Qed.

Lemma filter_deleted_key {A} (M : gmap addr A) (a : addr) :
  filter (λ p : addr * A, p.1 ≠ a) (map_to_list (delete a M)) = map_to_list (delete a M).
Proof.
  apply filter_all, Forall_forall.
  intros [a' m] Hin%elem_of_map_to_list. cbn. intros ->.
  by rewrite lookup_delete_eq in Hin.
Qed.

Lemma V1_room_set_room_eq r v σ : V1.room (V1.set_room r v σ) r = v.
Proof. unfold V1.room, V1.set_room. cbn. apply lookup_total_insert_eq. Qed.

Lemma V1_quitCurrentRoom_spec σ c :
  let a := RemoteAddr (V1.Conn (V1.client σ c)) in
  match V1.Room (V1.client σ c) with
  | Some r =>
      V1.Rooms (V1.quitCurrentRoom c σ) = V1.Rooms σ ∧
      V1.clients (V1.quitCurrentRoom c σ) = V1.clients σ ∧
      V1.rooms (V1.quitCurrentRoom c σ) =
        <[r := {| V1.Name := V1.Name (V1.room σ r);
                  V1.Members := delete a (V1.Members (V1.room σ r)) |}]> (V1.rooms σ) ∧
      V1.wire (V1.quitCurrentRoom c σ) =
        V1.wire σ ++
        notices (V1_conns σ (delete a (V1.Members (V1.room σ r))))
                (line ("> " +:+ V1.NickName (V1.client σ c) +:+ " has left the chat"))
  | None => V1.quitCurrentRoom c σ = σ
  end.
Proof.
  intros a. unfold V1.quitCurrentRoom.
  destruct (V1.Room (V1.client σ c)) as [r|]; [|done].
  rewrite V1_Room_Broadcast_eq. cbn [V1.Rooms V1.clients V1.rooms V1.wire].
  split_and!; try done.
  rewrite V1_room_set_room_eq. cbn [V1.Members V1.set_room V1.wire].
  change (V1.client (V1.set_room ?r ?v ?τ) ?c') with (V1.client τ c').
  fold a. rewrite filter_deleted_key.
  unfold notices, V1_conns. by rewrite <- list_fmap_compose.
Qed.

(** ** Members stay filed under their own connection

    The hypothesis of the broadcast lemmas holds in every state the
    processor reaches from a server without rooms. *)

Lemma bind_Ok_inv {A B} (m : result A) (f : A → result B) (y : B) :
  m ≫= f = Ok y → ∃ x, m = Ok x ∧ f x = Ok y.
Proof. destruct m as [x|q]; [by exists x|done]. Qed.

Lemma V2_keyed_conns σ σ' M :
  (∀ m, V2.Conn (V2.client σ' m) = V2.Conn (V2.client σ m)) →
  V2_keyed σ M → V2_keyed σ' M.
Proof. intros Hc Hk k m Hm. rewrite Hc. by apply Hk. Qed.

Lemma V2_all_keyed_same σ σ' :
  V2.rooms σ' = V2.rooms σ → V2.clients σ' = V2.clients σ →
  V2_all_keyed σ → V2_all_keyed σ'.
Proof.
  intros Hr Hc Hk r. unfold V2.room. rewrite Hr.
  eapply V2_keyed_conns; [|apply Hk]. intros m. unfold V2.client. by rewrite Hc.
Qed.

Lemma V2_all_keyed_set_client σ c v :
  V2.Conn v = V2.Conn (V2.client σ c) →
  V2_all_keyed σ → V2_all_keyed (V2.set_client c v σ).
Proof.
  intros Hv Hk r. rewrite V2_room_set_client.
  eapply V2_keyed_conns; [|apply Hk]. intros m.
  destruct (decide (c = m)) as [<-|Hne].
  - by rewrite V2_client_set_client_eq.
  - by rewrite V2_client_set_client_ne.
Qed.

Lemma V2_all_keyed_set_room σ r v :
  V2_keyed σ (V2.Clients v) →
  V2_all_keyed σ → V2_all_keyed (V2.set_room r v σ).
Proof.
  intros Hv Hk r'.
  apply (V2_keyed_conns σ); [done|].
  destruct (decide (r = r')) as [<-|Hne].
  - by rewrite V2_room_set_room_eq.
  - rewrite V2_room_set_room_ne by done. apply Hk.
Qed.

Lemma V2_all_keyed_broadcast σ r msg :
  V2_all_keyed σ → V2_all_keyed (V2.broadcastMessage r msg σ).
Proof. apply V2_all_keyed_same; by rewrite V2_broadcastMessage_eq. Qed.

Lemma V2_Join_keyed σ σ' c args :
  V2.Server_Join c args σ = Ok σ' → V2_all_keyed σ → V2_all_keyed σ'.
Proof.
  unfold V2.Server_Join. intros HJ Hk.
  case_decide.
  { injection HJ as <-. by eapply V2_all_keyed_same. }
  apply bind_Ok_inv in HJ as (roomName & _ & HJ).
  apply bind_Ok_inv in HJ as ([r σ1] & Hlk & HJ).
  apply bind_Ok_inv in HJ as (history & _ & HJ).
  injection HJ as <-.
  assert (V2_all_keyed σ1) as Hk1.
  { destruct (V2.Rooms σ !! roomName) as [r0|].
    - by injection Hlk as <- <-.
    - apply bind_Ok_inv in Hlk as (v & Hv & Hlk). injection Hlk as <- <-.
      eapply V2_all_keyed_same; [done..|].
      apply V2_all_keyed_set_room; [|done].
      unfold V2.NewRoom in Hv. apply bind_Ok_inv in Hv as (buf & _ & Hv).
      injection Hv as <-. apply map_Forall_empty. }
  apply V2_all_keyed_broadcast.
  eapply V2_all_keyed_same; [by rewrite V2_replay_eq..|].
  apply V2_all_keyed_set_client; [by autorewrite with v2|].
  apply V2_all_keyed_set_room; [|done].
  apply map_Forall_insert_2; [done|apply Hk1].
Qed.

Lemma V2_dispatch_keyed σ σ' cmd :
  V2.dispatch cmd σ = Ok σ' → V2_all_keyed σ → V2_all_keyed σ'.
Proof.
  unfold V2.dispatch. intros Hd Hk. repeat case_decide.
  - unfold V2.Server_NickName in Hd. case_decide.
    + injection Hd as <-. by eapply V2_all_keyed_same.
    + apply bind_Ok_inv in Hd as (name & _ & Hd). injection Hd as <-.
      eapply V2_all_keyed_same; [done..|]. by apply V2_all_keyed_set_client.
  - injection Hd as <-. by eapply V2_all_keyed_same.
  - by eapply V2_Join_keyed.
  - unfold V2.Server_Message in Hd. case_decide.
    + injection Hd as <-. by eapply V2_all_keyed_same.
    + apply bind_Ok_inv in Hd as (roomName & _ & Hd).
      apply bind_Ok_inv in Hd as (text & _ & Hd).
      destruct (V2.Rooms σ !! roomName) as [r|].
      * apply bind_Ok_inv in Hd as (buf & _ & Hd). injection Hd as <-.
        apply V2_all_keyed_broadcast, V2_all_keyed_set_room; [apply Hk|done].
      * injection Hd as <-. by eapply V2_all_keyed_same.
  - injection Hd as <-. eapply V2_all_keyed_same; [done..|].
    destruct (V2.Room (V2.client σ (V2.Client_ cmd))) as [r|]; [|done].
    apply V2_all_keyed_set_client; [by autorewrite with v2|].
    apply V2_all_keyed_broadcast, V2_all_keyed_set_room; [|done].
    apply map_Forall_delete, Hk.
  - by injection Hd as <-.
Qed.

Lemma V2_Run_keyed cmds : ∀ σ σ',
  V2.Run cmds σ = Ok σ' → V2_all_keyed σ → V2_all_keyed σ'.
Proof.
  induction cmds as [|cmd cmds IH]; intros σ σ' HR Hk; cbn in HR.
  - by injection HR as <-.
  - apply bind_Ok_inv in HR as (σ1 & Hd & HR).
    eauto using V2_dispatch_keyed.
Qed.

Lemma V2_NewServer_keyed : V2_all_keyed V2.NewServer.
Proof. intros r. apply map_Forall_empty. Qed.

Lemma V1_room_set_room_ne r r' v σ :
  r ≠ r' → V1.room (V1.set_room r v σ) r' = V1.room σ r'.
Proof. intros. unfold V1.room, V1.set_room. cbn. by apply lookup_total_insert_ne. Qed.

Lemma V1_client_set_client_eq c v σ : V1.client (V1.set_client c v σ) c = v.
Proof. unfold V1.client, V1.set_client. cbn. apply lookup_total_insert_eq. Qed.

Lemma V1_client_set_client_ne c c' v σ :
  c ≠ c' → V1.client (V1.set_client c v σ) c' = V1.client σ c'.
Proof. intros. unfold V1.client, V1.set_client. cbn. by apply lookup_total_insert_ne. Qed.

Lemma V1_keyed_conns σ σ' M :
  (∀ m, V1.Conn (V1.client σ' m) = V1.Conn (V1.client σ m)) →
  V1_keyed σ M → V1_keyed σ' M.
Proof. intros Hc Hk k m Hm. cbn. rewrite Hc. by apply Hk. Qed.

Lemma V1_all_keyed_same σ σ' :
  V1.rooms σ' = V1.rooms σ → V1.clients σ' = V1.clients σ →
  V1_all_keyed σ → V1_all_keyed σ'.
Proof.
  intros Hr Hc Hk r. unfold V1.room. rewrite Hr.
  eapply V1_keyed_conns; [|apply Hk]. intros m. unfold V1.client. by rewrite Hc.
Qed.

Lemma V1_all_keyed_set_client σ c v :
  V1.Conn v = V1.Conn (V1.client σ c) →
  V1_all_keyed σ → V1_all_keyed (V1.set_client c v σ).
Proof.
  intros Hv Hk r.
  change (V1.room (V1.set_client c v σ) r) with (V1.room σ r).
  eapply V1_keyed_conns; [|apply Hk]. intros m.
  destruct (decide (c = m)) as [<-|Hne].
  - by rewrite V1_client_set_client_eq.
  - by rewrite V1_client_set_client_ne.
Qed.

Lemma V1_all_keyed_set_room σ r v :
  V1_keyed σ (V1.Members v) →
  V1_all_keyed σ → V1_all_keyed (V1.set_room r v σ).
Proof.
  intros Hv Hk r'.
  apply (V1_keyed_conns σ); [done|].
  destruct (decide (r = r')) as [<-|Hne].
  - by rewrite V1_room_set_room_eq.
  - rewrite V1_room_set_room_ne by done. apply Hk.
Qed.

Lemma V1_all_keyed_broadcast σ r s msg :
  V1_all_keyed σ → V1_all_keyed (V1.Room_Broadcast r s msg σ).
Proof. apply V1_all_keyed_same; by rewrite V1_Room_Broadcast_eq. Qed.

Lemma V1_all_keyed_quitCurrentRoom σ c :
  V1_all_keyed σ → V1_all_keyed (V1.quitCurrentRoom c σ).
Proof.
  intros Hk. unfold V1.quitCurrentRoom.
  destruct (V1.Room (V1.client σ c)) as [r|]; [|done].
  apply V1_all_keyed_broadcast, V1_all_keyed_set_room; [|done].
  apply map_Forall_delete, Hk.
Qed.

Lemma V1_dispatch_keyed σ σ' cmd :
  V1.dispatch cmd σ = Ok σ' → V1_all_keyed σ → V1_all_keyed σ'.
Proof.
  unfold V1.dispatch. intros Hd Hk. destruct (V1.ID cmd).
  - unfold V1.Server_NickName in Hd.
    apply bind_Ok_inv in Hd as (name & _ & Hd). injection Hd as <-.
    eapply V1_all_keyed_same; [done..|]. by apply V1_all_keyed_set_client.
  - unfold V1.Server_Join in Hd.
    apply bind_Ok_inv in Hd as (roomName & _ & Hd).
    destruct (V1.Rooms σ !! roomName) as [r|];
      injection Hd as <-;
      (eapply V1_all_keyed_same; [done..|]);
      apply V1_all_keyed_broadcast;
      (apply V1_all_keyed_set_client; [done|]);
      apply V1_all_keyed_quitCurrentRoom;
      (apply V1_all_keyed_set_room; [apply map_Forall_insert_2; [done|]|]).
    + apply Hk.
    + done.
    + change (V1.room (V1.set_Rooms ?R ?τ) ?r) with (V1.room τ r).
      rewrite V1_room_set_room_eq. apply map_Forall_empty.
    + eapply V1_all_keyed_same; [done..|].
      apply V1_all_keyed_set_room; [apply map_Forall_empty|done].
  - injection Hd as <-. by eapply V1_all_keyed_same.
  - unfold V1.Server_Message in Hd.
    apply bind_Ok_inv in Hd as (text & _ & Hd).
    destruct (V1.Room (V1.client σ (V1.Client_ cmd))) as [r|] eqn:Hroom.
    + rewrite Hroom in Hd. injection Hd as <-. by apply V1_all_keyed_broadcast.
    + change (V1.client (V1.Client_Error ?c ?e ?τ) ?c') with (V1.client τ c') in Hd.
      by rewrite Hroom in Hd.
  - injection Hd as <-. eapply V1_all_keyed_same; [done..|].
    by apply V1_all_keyed_quitCurrentRoom.
Qed.

Lemma V1_Run_keyed cmds : ∀ σ σ',
  V1.Run cmds σ = Ok σ' → V1_all_keyed σ → V1_all_keyed σ'.
Proof.
  induction cmds as [|cmd cmds IH]; intros σ σ' HR Hk; cbn in HR.
  - by injection HR as <-.
  - apply bind_Ok_inv in HR as (σ1 & Hd & HR).
    eauto using V1_dispatch_keyed.
Qed.

Lemma V1_NewServer_keyed : V1_all_keyed V1.NewServer.
Proof. intros r. apply map_Forall_empty. Qed.

(** ** Variant 1 moves a client from one room to another

    For two different rooms [Server.Join] of package [chat] ends in the state
    C1 describes: out of the old room, in the new one. *)

Lemma V1_room_same σ σ' r : V1.rooms σ' = V1.rooms σ → V1.room σ' r = V1.room σ r.
Proof. unfold V1.room. by intros ->. Qed.

Lemma V1_client_same σ σ' c : V1.clients σ' = V1.clients σ → V1.client σ' c = V1.client σ c.
Proof. unfold V1.client. by intros ->. Qed.

Lemma V1_Join_moves σ c args roomName ra :
  args !! 1 = Some roomName →
  V1.Room (V1.client σ c) = Some ra →
  V1.Rooms σ !! roomName ≠ Some ra →
  ra ∈ dom (V1.rooms σ) →
  ∃ σ' rb,
    V1.Server_Join c args σ = Ok σ' ∧
    V1.Rooms σ' !! roomName = Some rb ∧ rb ≠ ra ∧
    V1.Room (V1.client σ' c) = Some rb ∧
    V1.Members (V1.room σ' ra) !! RemoteAddr (V1.Conn (V1.client σ c)) = None ∧
    V1.Members (V1.room σ' rb) !! RemoteAddr (V1.Conn (V1.client σ c)) = Some c.
Proof.
  intros Hname Hroom Hother Hdom.
  unfold V1.Server_Join.
  rewrite (index_lookup args 1 roomName Hname : index args 1 = Ok roomName), bind_Ok.
  set (a := RemoteAddr (V1.Conn (V1.client σ c))).
  assert (∃ rb σ1,
            match V1.Rooms σ !! roomName with
            | Some r => (r, σ)
            | None =>
                (fresh (dom (V1.rooms σ)),
                 V1.set_Rooms (<[roomName := fresh (dom (V1.rooms σ))]> (V1.Rooms σ))
                   (V1.set_room (fresh (dom (V1.rooms σ)))
                      {| V1.Name := roomName; V1.Members := ∅ |} σ))
            end = (rb, σ1) ∧
            rb ≠ ra ∧ V1.Rooms σ1 !! roomName = Some rb ∧
            V1.clients σ1 = V1.clients σ ∧
            V1.room σ1 ra = V1.room σ ra) as (rb & σ1 & -> & Hne & Hrb & Hcl & Hra).
  { destruct (V1.Rooms σ !! roomName) as [r|] eqn:Hr.
    - exists r, σ. split_and!; try done. congruence.
    - eexists _, _. split; [done|].
      assert (fresh (dom (V1.rooms σ)) ≠ ra) as Hfresh.
      { intros Heq. rewrite <- Heq in Hdom. by apply is_fresh in Hdom. }
      split_and!; [done| |done|].
      + cbn. apply lookup_insert_eq.
      + change (V1.room (V1.set_Rooms ?R ?τ) ?r) with (V1.room τ r).
        by rewrite V1_room_set_room_ne. }
  pose proof (V1_client_same σ σ1 c Hcl) as Hc1.
  set (σ2 := V1.set_room rb _ σ1).
  assert (V1.client σ2 c = V1.client σ c) as Hc2 by done.
  pose proof (V1_quitCurrentRoom_spec σ2 c) as Hq. cbn zeta in Hq.
  rewrite Hc2, Hroom in Hq. destruct Hq as (HR3 & Hcl3 & Hrs3 & _).
  set (σ3 := V1.quitCurrentRoom c σ2) in *.
  eexists _, rb. split; [reflexivity|].
  assert (∀ r, V1.room σ3 r =
               if decide (ra = r)
               then {| V1.Name := V1.Name (V1.room σ2 ra);
                       V1.Members := delete a (V1.Members (V1.room σ2 ra)) |}
               else V1.room σ2 r) as Hroom3.
  { intros r. unfold V1.room at 1. rewrite Hrs3.
    destruct (decide (ra = r)) as [<-|Hn].
    - apply lookup_total_insert_eq.
    - by apply lookup_total_insert_ne. }
  split_and!.
  - rewrite (V1_Room_Broadcast_eq rb c). cbn. by rewrite HR3.
  - done.
  - rewrite (V1_Room_Broadcast_eq rb c). cbn [V1.Client_Message V1.emit].
    unfold V1.client at 1. cbn. by rewrite lookup_total_insert_eq.
  - rewrite (V1_Room_Broadcast_eq rb c).
    change (V1.room (V1.Client_Message ?c0 ?m ?τ) ?r) with (V1.room τ r).
    unfold V1.room at 1. cbn [V1.rooms V1.set_client].
    fold (V1.room σ3 ra). rewrite Hroom3, decide_True by done. cbn.
    apply lookup_delete_eq.
  - rewrite (V1_Room_Broadcast_eq rb c).
    change (V1.room (V1.Client_Message ?c0 ?m ?τ) ?r) with (V1.room τ r).
    unfold V1.room at 1. cbn [V1.rooms V1.set_client].
    fold (V1.room σ3 rb). rewrite Hroom3, decide_False by done.
    unfold σ2. rewrite V1_room_set_room_eq. cbn. rewrite Hc1.
    apply lookup_insert_eq.
Qed.

(** ** Variant 2 leaves the old room as it is

    [Server.Join] of [chatv2] never touches a room other than the one
    joined: whoever was filed in the old room stays filed there. *)

Lemma V2_Join_keeps_old_room σ c args roomName ra :
  args !! 1 = Some roomName →
  V2.Rooms σ !! roomName ≠ Some ra →
  ra ∈ dom (V2.rooms σ) →
  V2_buffers_ok σ →
  ∃ σ', V2.Server_Join c args σ = Ok σ' ∧ V2.room σ' ra = V2.room σ ra.
Proof.
  intros Hname Hother Hdom Hok.
  destruct (V2_Join_total σ c args Hok) as (σ' & HJ & _).
  exists σ'. split; [done|].
  pose proof (lookup_lt_Some _ _ _ Hname) as Hlen.
  unfold V2.Server_Join in HJ.
  rewrite decide_False in HJ by lia.
  rewrite (index_lookup args 1 roomName Hname : index args 1 = Ok roomName),
    bind_Ok in HJ.
  apply bind_Ok_inv in HJ as ([rb σ1] & Hlk & HJ).
  apply bind_Ok_inv in HJ as (history & _ & HJ).
  injection HJ as <-.
  autorewrite with v2.
  assert (rb ≠ ra ∧ V2.room σ1 ra = V2.room σ ra) as [Hne Hra].
  { destruct (V2.Rooms σ !! roomName) as [r|] eqn:Hr.
    - injection Hlk as <- <-. split; [congruence|done].
    - apply bind_Ok_inv in Hlk as (v & _ & Hlk). injection Hlk as <- <-.
      assert (fresh (dom (V2.rooms σ)) ≠ ra) as Hfresh.
      { intros Heq. rewrite <- Heq in Hdom. by apply is_fresh in Hdom. }
      split; [done|].
      change (V2.room (V2.set_Rooms ?R ?τ) ?r) with (V2.room τ r).
      by rewrite V2_room_set_room_ne. }
  by rewrite V2_room_set_room_ne.
Qed.

(** * The claims *)


(** ** History buffer *)

(** C3: on a buffer built with a capacity [n > 0], after any finite run of
    [Add] calls, [GetAll] returns exactly the [min n total] messages that
    were added last, the oldest of them first, in the order they were added.
    The run of [Add] calls itself never fails. *)
Theorem C3_GetAll_returns_most_recent (n : Z) (cb0 : CircularBuffer)
    (msgs : list string) :
  (0 < n)%Z →
  NewCircularBuffer n = Ok cb0 →
  ∃ cb, AddAll msgs cb0 = Ok cb ∧
        GetAll cb = Ok (most_recent (Z.to_nat n `min` length msgs) msgs) ∧
        length (most_recent (Z.to_nat n `min` length msgs) msgs)
          = Z.to_nat n `min` length msgs.
Proof.
  intros Hn Hnew.
  assert (cb_size cb0 = n) as Hsz.
  { unfold NewCircularBuffer, make in Hnew.
    destruct (decide _); [|done]. cbn in Hnew. by injection Hnew as <-. }
  destruct (AddAll_represents msgs cb0 [] (represents_new n cb0 Hn Hnew))
    as (cb & Hall & _ & Hrep).
  exists cb. split; [done|].
  assert (most_recent (Z.to_nat n `min` length msgs) msgs
          = most_recent (Z.to_nat n) msgs) as ->.
  { unfold most_recent. f_equal. lia. }
  rewrite Hsz in Hrep. cbn in Hrep.
  split; [by apply GetAll_represents|].
  rewrite length_most_recent. lia.
Qed.

(** The scenario of the specification: capacity 5, "m1" to "m7" added in
    this order. *)
Lemma C3_capacity_five_witness :
  (0 < 5)%Z ∧
  NewCircularBuffer 5 = Ok Scenario.empty5 ∧
  ∃ cb, AddAll ["m1"; "m2"; "m3"; "m4"; "m5"; "m6"; "m7"]%string Scenario.empty5 = Ok cb ∧
        GetAll cb = Ok ["m3"; "m4"; "m5"; "m6"; "m7"]%string ∧
        length ["m3"; "m4"; "m5"; "m6"; "m7"]%string = 5.
Proof.
  split; [lia|]. split; [reflexivity|].
  apply (C3_GetAll_returns_most_recent 5 Scenario.empty5
           ["m1"; "m2"; "m3"; "m4"; "m5"; "m6"; "m7"]%string); [lia|reflexivity].
Defined.

(** C10 (as amended): a buffer built with a positive capacity is within the
    bounds [0 ≤ count ≤ size], [0 ≤ start < size], [0 ≤ end < size], with a
    backing array of [size] cells; every [Add] on a buffer within the bounds
    succeeds and leaves it within the bounds; every [GetAll] on such a buffer
    succeeds (it returns a fresh slice and changes no field).  So neither
    operation indexes the backing array out of range.  A buffer built with
    capacity 0 makes [Add] fail on its first statement, the write to the
    empty backing array: an index out of range, the remainder by zero on the
    next line is never evaluated. *)
Theorem C10_bounds_invariant :
  (∀ n cb, (0 < n)%Z → NewCircularBuffer n = Ok cb → cb_bounds cb ∧ cb_backed cb) ∧
  (∀ m cb, cb_bounds cb → cb_backed cb →
     ∃ cb', Add m cb = Ok cb' ∧ cb_bounds cb' ∧ cb_backed cb') ∧
  (∀ cb, cb_bounds cb → cb_backed cb → ∃ l, GetAll cb = Ok l) ∧
  (∀ m cb, NewCircularBuffer 0 = Ok cb → Add m cb = Panic IndexOutOfRange).
Proof.
  split_and!.
  - intros n cb Hn Hnew.
    by destruct (represents_new n cb Hn Hnew) as (? & ? & _).
  - apply Add_bounds.
  - apply GetAll_total.
  - intros m cb [= <-]. reflexivity.
Qed.

(** The bounds at work on the buffer of capacity 5. *)
Lemma C10_capacity_five_witness :
  (cb_bounds Scenario.empty5 ∧ cb_backed Scenario.empty5) ∧
  (∃ cb', Add "m1" Scenario.empty5 = Ok cb' ∧ cb_bounds cb' ∧ cb_backed cb') ∧
  (∃ l, GetAll Scenario.empty5 = Ok l) ∧
  Add "m1" Scenario.empty0 = Panic IndexOutOfRange.
Proof.
  destruct C10_bounds_invariant as (Hnew & Hadd & Hget & Hzero).
  assert (cb_bounds Scenario.empty5 ∧ cb_backed Scenario.empty5) as Hinv.
  { apply (Hnew 5%Z); [lia|reflexivity]. }
  split; [exact Hinv|]. split; [|split].
  - apply Hadd; apply Hinv.
  - apply Hget; apply Hinv.
  - apply Hzero. reflexivity.
Defined.

(** C10, the claim as it stands, fails at capacity 0: [Add] does not get as
    far as a remainder by zero. *)
Lemma C10_capacity_zero_counterexample :
  NewCircularBuffer 0 = Ok Scenario.empty0 ∧
  Add "m1" Scenario.empty0 = Panic IndexOutOfRange ∧
  Add "m1" Scenario.empty0 ≠ Panic IntegerDivideByZero.
Proof. split; [reflexivity|]. split; [reflexivity|discriminate]. Qed.

(** ** A message to a room that does not exist *)

(** C8: a [/msg] that names a room the registry does not hold answers the
    issuer with "Error: room not found" and does nothing else: no other
    write, and the registry, every room (members and history) and every
    client are what they were. *)
Theorem C8_message_to_missing_room (σ : V2.State) (c : client_ref)
    (args : list string) (roomName : string) :
  args !! 1 = Some roomName →
  V2.Rooms σ !! roomName = None →
  ∃ σ', V2.Server_Message c args σ = Ok σ' ∧
        V2.wire σ' = V2.wire σ ++
                     [Write (V2.Conn (V2.client σ c)) (line "Error: room not found")] ∧
        V2.Rooms σ' = V2.Rooms σ ∧
        V2.rooms σ' = V2.rooms σ ∧
        V2.clients σ' = V2.clients σ.
Proof.
  intros Hname Hnone.
  pose proof (lookup_lt_Some _ _ _ Hname) as Hlen.
  unfold V2.Server_Message.
  rewrite decide_False by lia.
  rewrite (index_lookup args 1 roomName Hname : index args 1 = Ok roomName). cbn.
  rewrite slice_from_le by lia. cbn.
  rewrite Hnone. by eexists.
Qed.

(** Nobody has joined anything: "general" is not in the registry. *)
Lemma C8_missing_room_witness :
  ["/msg"; "general"; "hello"]%string !! 1 = Some "general"%string ∧
  V2.Rooms Scenario.two_clients_v2 !! "general"%string = None ∧
  ∃ σ', V2.Server_Message 1 ["/msg"; "general"; "hello"]%string
          Scenario.two_clients_v2 = Ok σ' ∧
        V2.wire σ' = V2.wire Scenario.two_clients_v2 ++
                     [Write (V2.Conn (V2.client Scenario.two_clients_v2 1))
                        (line "Error: room not found")] ∧
        V2.Rooms σ' = V2.Rooms Scenario.two_clients_v2 ∧
        V2.rooms σ' = V2.rooms Scenario.two_clients_v2 ∧
        V2.clients σ' = V2.clients Scenario.two_clients_v2.
Proof.
  split; [reflexivity|]. split; [reflexivity|].
  apply (C8_message_to_missing_room Scenario.two_clients_v2 1
           ["/msg"; "general"; "hello"]%string "general"%string);
    reflexivity.
Defined.


(** ** Joining a room *)





(** ** The hand-written states are states of the server *)

Example A_with_both_v1_reached :
  ∃ σ, V1.Run Scenario.both_in_A_v1 Scenario.two_clients_v1 = Ok σ ∧
       V1.Rooms σ = V1.Rooms Scenario.A_with_both_v1 ∧
       V1.rooms σ = V1.rooms Scenario.A_with_both_v1 ∧
       V1.clients σ = V1.clients Scenario.A_with_both_v1.
Proof. eexists. split; [vm_compute; reflexivity|]. by vm_compute. Qed.

Example A_with_both_v2_reached :
  ∃ σ, V2.Run Scenario.both_in_A_v2 Scenario.two_clients_v2 = Ok σ ∧
       V2.Rooms σ = V2.Rooms Scenario.A_with_both_v2 ∧
       V2.rooms σ = V2.rooms Scenario.A_with_both_v2 ∧
       V2.clients σ = V2.clients Scenario.A_with_both_v2.
Proof. eexists. split; [vm_compute; reflexivity|]. by vm_compute. Qed.

Example A_with_history_v2_reached :
  ∃ σ, V2.Run [Scenario.cmd2 V2.CmdNickname 0 ["/name"; "alice"];
               Scenario.cmd2 V2.CmdNickname 1 ["/name"; "bob"];
               Scenario.cmd2 V2.CmdJoin 1 ["/join"; "A"];
               Scenario.cmd2 V2.CmdMsg 1 ["/msg"; "A"; "hi"]]%string
         Scenario.two_clients_v2 = Ok σ ∧
       V2.Rooms σ = V2.Rooms Scenario.A_with_history_v2 ∧
       V2.rooms σ = V2.rooms Scenario.A_with_history_v2 ∧
       V2.clients σ = V2.clients Scenario.A_with_history_v2.
Proof. eexists. split; [vm_compute; reflexivity|]. by vm_compute. Qed.

(** ** Moving from one room to another *)

(** Variant 1 takes alice out of "A" when she joins "B": bob is told that
    she left, and his next message does not reach her. *)
Example V1_join_leaves_old_room :
  ∃ σ, V1.Run Scenario.alice_moves_v1 Scenario.two_clients_v1 = Ok σ ∧
       Scenario.member_v1 σ "A" 10 = None ∧
       Scenario.member_v1 σ "B" 10 = Some 0 ∧
       received 10 (V1.wire σ) =
         [line "> all right, Server will know you by alice";
          line "> Welcome to A";
          line "> bob has joined the room";
          line "> Welcome to B"] ∧
       received 11 (V1.wire σ) =
         [line "> all right, Server will know you by bob";
          line "> Welcome to A";
          line "> alice has left the chat"].
Proof. eexists. split; [vm_compute; reflexivity|]. by vm_compute. Qed.

(** Variant 1 files the client in the new room before it leaves the old
    one.  When the two are the same room, the client ends up filed nowhere
    while its [Room] still points to the room. *)
Example V1_rejoin_drops_membership :
  ∃ σ, V1.Run (Scenario.both_in_A_v1 ++
               [Scenario.cmd1 V1.CMD_JOIN 0 ["/join"; "A"]%string])
         Scenario.two_clients_v1 = Ok σ ∧
       Scenario.member_v1 σ "A" 10 = None ∧
       V1.Room (V1.client σ 0) = V1.Rooms σ !! "A"%string ∧
       V1.Rooms σ !! "A"%string = Some 0.
Proof. eexists. split; [vm_compute; reflexivity|]. by vm_compute. Qed.

(** C1 fails in [chatv2]: alice and bob are in room "A", alice joins "B",
    bob sends [/msg A hi].  [Server.Join] leaves alice filed in "A": no
    "left the room" notice reaches bob, and bob's message to "A" reaches
    alice. *)
Theorem C1_v2_join_keeps_old_membership :
  ∃ σ, V2.Run Scenario.alice_moves_v2 Scenario.two_clients_v2 = Ok σ ∧
       Scenario.member_v2 σ "A" 10 = Some 0 ∧
       Scenario.member_v2 σ "B" 10 = Some 0 ∧
       received 10 (V2.wire σ) =
         [line "Nickname changed to: alice";
          line "alice joined the room";
          line "bob joined the room";
          line "alice joined the room";
          line "bob: hi"] ∧
       received 11 (V2.wire σ) =
         [line "Nickname changed to: bob";
          line "bob joined the room";
          line "bob: hi"].
Proof. eexists. split; [vm_compute; reflexivity|]. by vm_compute. Qed.

(** ** Commands that stop the processor of variant 1 *)

(** C4 fails in package [chat]: [/name] with no argument makes
    [Server.NickName] index [args[1]] in a slice of length 1, and [/msg]
    from a client that has joined no room makes [Server.Message] call
    [Broadcast] through the nil [c.Room] after the error reply.  Either
    panic ends [Run], whatever is still queued. *)
Theorem C4_v1_processor_stops :
  (∀ σ c rest,
     V1.Run (Scenario.cmd1 V1.CMD_NICKNAME c ["/name"%string] :: rest) σ
     = Panic IndexOutOfRange) ∧
  (∀ text rest,
     V1.Run (Scenario.cmd1 V1.CMD_MSG 0 ("/msg"%string :: text) :: rest)
       Scenario.two_clients_v1
     = Panic NilDereference).
Proof.
  split.
  - intros σ c rest. cbn. by rewrite V1_NickName_short by (cbn; lia).
  - intros text rest. cbn. by rewrite V1_Message_no_room.
Qed.

(** ** Setting the nickname *)

(** C6 fails in package [chat]: [Server.NickName] reads [args[1]] without
    looking at the length, so [/name] alone is no usage error but a panic. *)
Theorem C6_v1_name_without_argument :
  ∀ σ c, V1.Server_NickName c ["/name"%string] σ = Panic IndexOutOfRange.
Proof. intros σ c. reflexivity. Qed.

(** ** Sending a message *)

(** C7 fails in [chatv2]: [Server.Message] asks for [len(args) >= 2] only.
    [/msg A] with no text is not a usage error: the empty message "bob: " is
    appended to the history of "A" and broadcast to its members. *)
Theorem C7_v2_message_without_text :
  ∃ σ, V2.Run Scenario.bob_sends_no_text_v2 Scenario.two_clients_v2 = Ok σ ∧
       V2_history σ "A" = Ok ["bob: "%string] ∧
       received 10 (V2.wire σ) =
         [line "Nickname changed to: alice";
          line "alice joined the room";
          line "bob joined the room";
          line "bob: "] ∧
       received 11 (V2.wire σ) =
         [line "Nickname changed to: bob";
          line "bob joined the room";
          line "bob: "].
Proof. eexists. split; [vm_compute; reflexivity|]. by vm_compute. Qed.

(** ** Who gets a broadcast *)

(** C2 (as amended): a room broadcast writes the line once to every
    connection filed in the room.  [Room.Broadcast] of package [chat] leaves
    out the entry filed under the sender's address; [broadcastMessage] of
    [chatv2] takes no sender and leaves nobody out, so a sender that is
    itself filed in the room gets its own line.  Connections not filed in the
    room get nothing. *)
Theorem C2_broadcast_recipients :
  (∀ σ r sender msg cn,
     V1_keyed σ (V1.Members (V1.room σ r)) →
     received cn (V1.wire (V1.Room_Broadcast r sender msg σ)) =
     received cn (V1.wire σ) ++
     (if decide (is_Some (V1.Members (V1.room σ r) !! RemoteAddr cn) ∧
                 RemoteAddr cn ≠ RemoteAddr (V1.Conn (V1.client σ sender)))
      then [line ("> " +:+ msg)] else [])) ∧
  (∀ σ r msg cn,
     V2_keyed σ (V2.Clients (V2.room σ r)) →
     received cn (V2.wire (V2.broadcastMessage r msg σ)) =
     received cn (V2.wire σ) ++
     (if decide (is_Some (V2.Clients (V2.room σ r) !! cn))
      then [line msg] else [])).
Proof.
  split.
  - intros σ r sender msg cn Hk. by apply V1_broadcast_received.
  - intros σ r msg cn Hk. by apply V2_broadcast_received.
Qed.

(** Bob's line in a room that holds alice and bob. *)
Lemma C2_broadcast_witness :
  (V1_keyed Scenario.A_with_both_v1 (V1.Members (V1.room Scenario.A_with_both_v1 0)) ∧
   received 10 (V1.wire (V1.Room_Broadcast 0 1 "bob : hi" Scenario.A_with_both_v1))
     = [line "> bob : hi"] ∧
   received 11 (V1.wire (V1.Room_Broadcast 0 1 "bob : hi" Scenario.A_with_both_v1))
     = []) ∧
  (V2_keyed Scenario.A_with_both_v2 (V2.Clients (V2.room Scenario.A_with_both_v2 0)) ∧
   received 10 (V2.wire (V2.broadcastMessage 0 "bob: hi" Scenario.A_with_both_v2))
     = [line "bob: hi"] ∧
   received 11 (V2.wire (V2.broadcastMessage 0 "bob: hi" Scenario.A_with_both_v2))
     = [line "bob: hi"]).
Proof.
  destruct C2_broadcast_recipients as [H1 H2].
  assert (V1_keyed Scenario.A_with_both_v1
            (V1.Members (V1.room Scenario.A_with_both_v1 0))) as Hk1.
  { refine (bool_decide_unpack _ _). vm_compute. exact I. }
  assert (V2_keyed Scenario.A_with_both_v2
            (V2.Clients (V2.room Scenario.A_with_both_v2 0))) as Hk2.
  { refine (bool_decide_unpack _ _). vm_compute. exact I. }
  split; (split; [assumption|split]).
  - exact (H1 _ 0 1 "bob : hi"%string 10 Hk1).
  - exact (H1 _ 0 1 "bob : hi"%string 11 Hk1).
  - exact (H2 _ 0 "bob: hi"%string 10 Hk2).
  - exact (H2 _ 0 "bob: hi"%string 11 Hk2).
Defined.

(** C2, the claim as it stands, fails in [chatv2]: bob, a member of "A",
    sends [/msg A hi] and is written his own line. *)
Lemma C2_v2_sender_gets_own_message_counterexample :
  ∃ σ, V2.Run Scenario.bob_talks_v2 Scenario.two_clients_v2 = Ok σ ∧
       V2.Conn (V2.client σ 1) = 11 ∧
       received 11 (V2.wire σ) =
         [line "Nickname changed to: bob";
          line "bob joined the room";
          line "bob: hi"].
Proof. eexists. split; [vm_compute; reflexivity|]. by vm_compute. Qed.

(** In package [chat] the same exchange leaves bob without his own line. *)
Example V1_sender_is_left_out :
  ∃ σ, V1.Run Scenario.bob_talks_v1 Scenario.two_clients_v1 = Ok σ ∧
       received 10 (V1.wire σ) =
         [line "> all right, Server will know you by alice";
          line "> Welcome to A";
          line "> bob has joined the room";
          line "> bob : hi"] ∧
       received 11 (V1.wire σ) =
         [line "> all right, Server will know you by bob";
          line "> Welcome to A"].
Proof. eexists. split; [vm_compute; reflexivity|]. by vm_compute. Qed.

(** ** Quitting *)



(** Package [chat] does say goodbye. *)
Example V1_quit_says_goodbye :
  ∃ σ, V1.Run Scenario.bob_quits_v1 Scenario.two_clients_v1 = Ok σ ∧
       received 11 (V1.wire σ) =
         [line "> all right, Server will know you by bob";
          line "> Welcome to A";
          line "> sad to see you go :("] ∧
       last (V1.wire σ) = Some (Close 11).
Proof. eexists. split; [vm_compute; reflexivity|]. by vm_compute. Qed.


(** * Further properties of the code *)

(** ** When the processor of package [chat] panics *)

Lemma V1_Join_long σ c args :
  ¬ length args < 2 → ∃ σ', V1.Server_Join c args σ = Ok σ'.
Proof.
  intros Hlen. destruct args as [|a [|roomName args]]; [cbn in Hlen; lia..|].
  unfold V1.Server_Join.
  rewrite (index_lookup (a :: roomName :: args) 1 roomName eq_refl
             : index _ 1 = Ok roomName), bind_Ok.
  destruct (V1.Rooms σ !! roomName); by eexists.
Qed.

(** X1: a command makes the processor of package [chat] panic exactly when
    it is [/name] or [/join] with fewer than two tokens, or [/msg] with no
    token at all or from a client whose [Room] is nil.  Every other command
    is handled. *)
Theorem X1_v1_dispatch_panics_iff (cmd : V1.Command) (σ : V1.State) :
  (∃ p, V1.dispatch cmd σ = Panic p) ↔
  (V1.ID cmd = V1.CMD_NICKNAME ∧ length (V1.Args cmd) < 2) ∨
  (V1.ID cmd = V1.CMD_JOIN ∧ length (V1.Args cmd) < 2) ∨
  (V1.ID cmd = V1.CMD_MSG ∧
     (V1.Args cmd = [] ∨ V1.Room (V1.client σ (V1.Client_ cmd)) = None)).
Proof.
  destruct cmd as [id c args]. unfold V1.dispatch. cbn [V1.ID V1.Args V1.Client_].
  destruct id.
  - destruct (decide (length args < 2)) as [Hs|Hl].
    + rewrite V1_NickName_short by done. split; [by left|by eexists].
    + destruct args as [|a [|name args]]; [cbn in Hl; lia..|].
      split; [by intros [p Hp]|]. intros [[_ ?]|[[? _]|[? _]]]; done.
  - destruct (decide (length args < 2)) as [Hs|Hl].
    + rewrite V1_Join_short by done. split; [by right; left|by eexists].
    + destruct (V1_Join_long σ c args Hl) as [σ' ->].
      split; [by intros [p Hp]|]. intros [[? _]|[[_ ?]|[? _]]]; done.
  - split; [by intros [p Hp]|]. intros [[? _]|[[? _]|[? _]]]; done.
  - destruct args as [|a text].
    + split; [intros _; right; right; by split; [|left]|by eexists].
    + destruct (V1.Room (V1.client σ c)) as [r|] eqn:Hroom.
      * unfold V1.Server_Message. rewrite Hroom. cbn. rewrite Hroom.
        split; [by intros [p Hp]|].
        intros [[? _]|[[? _]|[_ [?|?]]]]; done.
      * rewrite V1_Message_no_room by done.
        split; [intros _; right; right; by split; [|right]|by eexists].
  - split; [by intros [p Hp]|]. intros [[? _]|[[? _]|[? _]]]; done.
Qed.

(** ** Package [chat] files a client in one room at most *)

Lemma V1_filed_once_same σ σ' :
  V1.rooms σ' = V1.rooms σ → V1.clients σ' = V1.clients σ →
  V1_filed_once σ → V1_filed_once σ'.
Proof.
  intros Hr Hc HI r a m. unfold V1.room, V1.client. rewrite Hr, Hc. apply HI.
Qed.

Lemma V1_filed_once_broadcast σ r s msg :
  V1_filed_once σ → V1_filed_once (V1.Room_Broadcast r s msg σ).
Proof. apply V1_filed_once_same; by rewrite V1_Room_Broadcast_eq. Qed.

(** Taking an entry out of a room keeps the rest in place. *)
Lemma V1_filed_once_delete σ r a :
  V1_filed_once σ →
  V1_filed_once (V1.set_room r {| V1.Name := V1.Name (V1.room σ r);
                                  V1.Members := delete a (V1.Members (V1.room σ r)) |} σ).
Proof.
  intros HI r' a' m.
  change (V1.client (V1.set_room ?r0 ?v ?τ) ?c') with (V1.client τ c').
  destruct (decide (r = r')) as [<-|Hne].
  - rewrite V1_room_set_room_eq. cbn.
    intros [_ Hm]%lookup_delete_Some. by apply HI.
  - rewrite V1_room_set_room_ne by done. apply HI.
Qed.

Lemma V1_filed_once_quitCurrentRoom σ c :
  V1_filed_once σ → V1_filed_once (V1.quitCurrentRoom c σ).
Proof.
  intros HI. unfold V1.quitCurrentRoom.
  destruct (V1.Room (V1.client σ c)) as [r|]; [|done].
  by apply V1_filed_once_broadcast, V1_filed_once_delete.
Qed.

(** A new room has nobody in it. *)
Lemma V1_filed_once_new_room σ name r :
  V1_filed_once σ →
  V1_filed_once (V1.set_Rooms (<[name := r]> (V1.Rooms σ))
                   (V1.set_room r {| V1.Name := name; V1.Members := ∅ |} σ)).
Proof.
  intros HI r' a m.
  change (V1.room (V1.set_Rooms ?R ?τ) ?r0) with (V1.room τ r0).
  change (V1.client (V1.set_Rooms ?R (V1.set_room ?r0 ?v ?τ)) ?c') with (V1.client τ c').
  destruct (decide (r = r')) as [<-|Hne].
  - rewrite V1_room_set_room_eq. cbn. by rewrite lookup_empty.
  - rewrite V1_room_set_room_ne by done. apply HI.
Qed.

(** The steps of [Join] after the room is at hand: file [c] in [r], leave
    the current room, point [c.Room] to [r]. *)
Lemma V1_filed_once_join_steps σ c r :
  V1_filed_once σ →
  let σ3 := V1.quitCurrentRoom c
              (V1.set_room r
                 {| V1.Name := V1.Name (V1.room σ r);
                    V1.Members := <[RemoteAddr (V1.Conn (V1.client σ c)) := c]>
                                    (V1.Members (V1.room σ r)) |} σ) in
  V1_filed_once
    (V1.set_client c
       {| V1.Conn := V1.Conn (V1.client σ3 c);
          V1.NickName := V1.NickName (V1.client σ3 c);
          V1.Room := Some r |} σ3).
Proof.
  intros HI. cbn zeta.
  set (ac := RemoteAddr (V1.Conn (V1.client σ c))).
  set (σ2 := V1.set_room r _ σ).
  assert (∀ m, V1.client σ2 m = V1.client σ m) as Hc2 by done.
  pose proof (V1_quitCurrentRoom_spec σ2 c) as Hq. cbn zeta in Hq.
  rewrite !Hc2 in Hq. fold ac in Hq.
  intros r' a m.
  change (V1.room (V1.set_client ?c0 ?v ?τ) ?r0) with (V1.room τ r0).
  (* the members of [r'] once [c] has left its current room *)
  assert (V1.Members (V1.room (V1.quitCurrentRoom c σ2) r') !! a = Some m →
          (r' = r ∧ a = ac ∧ m = c) ∨
          (a ≠ ac ∧ V1.Members (V1.room σ r') !! a = Some m) ∨
          (V1.Room (V1.client σ c) ≠ Some r' ∧ r' ≠ r ∧
           V1.Members (V1.room σ r') !! a = Some m)) as Hcases.
  { assert (∀ a', V1.Members (V1.room σ2 r') !! a' = Some m →
              (r' = r ∧ a' = ac ∧ m = c) ∨
              (a' ≠ ac ∧ V1.Members (V1.room σ r') !! a' = Some m) ∨
              (r' ≠ r ∧ V1.Members (V1.room σ r') !! a' = Some m)) as H2.
    { intros a'. unfold σ2. destruct (decide (r = r')) as [<-|Hne].
      - rewrite V1_room_set_room_eq. cbn.
        intros [[<- <-]|[? ?]]%lookup_insert_Some; [by left|by right; left].
      - rewrite V1_room_set_room_ne by done. intros ?. right; right. done. }
    destruct (V1.Room (V1.client σ c)) as [ra|] eqn:Hroom.
    - destruct Hq as (_ & _ & Hrs & _).
      unfold V1.room at 1. rewrite Hrs. fold (V1.room σ2 ra).
      destruct (decide (ra = r')) as [<-|Hne].
      + rewrite lookup_total_insert_eq. cbn.
        intros [Ha Hm]%lookup_delete_Some.
        destruct (H2 a Hm) as [(_ & -> & _)|[?|[_ ?]]]; [done|by right; left|].
        right; left. done.
      + rewrite lookup_total_insert_ne by done. fold (V1.room σ2 r').
        intros Hm. destruct (H2 a Hm) as [?|[?|[? ?]]]; [by left|by right; left|].
        right; right. split_and!; [congruence|done..].
    - rewrite Hq. intros Hm.
      destruct (H2 a Hm) as [?|[?|[? ?]]]; [by left|by right; left|].
      right; right. done. }
  assert (∀ m', V1.client (V1.quitCurrentRoom c σ2) m' = V1.client σ m') as Hclq.
  { intros m'. apply V1_client_same.
    destruct (V1.Room (V1.client σ c)); [by destruct Hq as (_ & -> & _)|by rewrite Hq]. }
  intros Hm. apply Hcases in Hm as [(-> & -> & ->)|[[Hne Hm]|(Hroom & Hner & Hm)]].
  - rewrite !V1_client_set_client_eq. cbn. by rewrite Hclq.
  - destruct (HI _ _ _ Hm) as [Hr Ha].
    assert (m ≠ c) as Hmc by (intros ->; by apply Hne).
    by rewrite !V1_client_set_client_ne, !Hclq.
  - destruct (HI _ _ _ Hm) as [Hr Ha].
    assert (m ≠ c) as Hmc by (intros ->; congruence).
    by rewrite !V1_client_set_client_ne, !Hclq.
Qed.

Lemma V1_filed_once_set_client σ c v :
  V1.Conn v = V1.Conn (V1.client σ c) → V1.Room v = V1.Room (V1.client σ c) →
  V1_filed_once σ → V1_filed_once (V1.set_client c v σ).
Proof.
  intros Hcn Hrm HI r a m Hm.
  change (V1.room (V1.set_client ?c0 ?v0 ?τ) ?r0) with (V1.room τ r0) in Hm.
  destruct (HI _ _ _ Hm) as [Hr Ha].
  destruct (decide (c = m)) as [<-|Hne].
  - rewrite !V1_client_set_client_eq. by rewrite Hcn, Hrm.
  - by rewrite !V1_client_set_client_ne.
Qed.

Lemma V1_filed_once_Client_Message σ c msg :
  V1_filed_once σ → V1_filed_once (V1.Client_Message c msg σ).
Proof. by apply V1_filed_once_same. Qed.

Lemma V1_filed_once_emit σ e : V1_filed_once σ → V1_filed_once (V1.emit e σ).
Proof. by apply V1_filed_once_same. Qed.

Lemma V1_dispatch_filed_once σ σ' cmd :
  V1.dispatch cmd σ = Ok σ' → V1_filed_once σ → V1_filed_once σ'.
Proof.
  unfold V1.dispatch. intros Hd HI. destruct (V1.ID cmd).
  - unfold V1.Server_NickName in Hd.
    apply bind_Ok_inv in Hd as (name & _ & Hd). injection Hd as <-.
    by apply V1_filed_once_Client_Message, V1_filed_once_set_client.
  - unfold V1.Server_Join in Hd.
    apply bind_Ok_inv in Hd as (roomName & _ & Hd).
    destruct (V1.Rooms σ !! roomName) as [r|];
      injection Hd as <-;
      apply V1_filed_once_Client_Message, V1_filed_once_broadcast.
    + by apply V1_filed_once_join_steps.
    + by apply (V1_filed_once_join_steps _ (V1.Client_ cmd) (fresh (dom (V1.rooms σ)))),
        V1_filed_once_new_room.
  - injection Hd as <-. by apply V1_filed_once_Client_Message.
  - unfold V1.Server_Message in Hd.
    apply bind_Ok_inv in Hd as (text & _ & Hd).
    destruct (V1.Room (V1.client σ (V1.Client_ cmd))) as [r|] eqn:Hroom.
    + rewrite Hroom in Hd. injection Hd as <-. by apply V1_filed_once_broadcast.
    + change (V1.client (V1.Client_Error ?c ?e ?τ) ?c') with (V1.client τ c') in Hd.
      by rewrite Hroom in Hd.
  - injection Hd as <-.
    by apply V1_filed_once_emit, V1_filed_once_Client_Message,
      V1_filed_once_quitCurrentRoom.
Qed.

Lemma V1_Run_filed_once cmds : ∀ σ σ',
  V1.Run cmds σ = Ok σ' → V1_filed_once σ → V1_filed_once σ'.
Proof.
  induction cmds as [|cmd cmds IH]; intros σ σ' HR HI; cbn in HR.
  - by injection HR as <-.
  - apply bind_Ok_inv in HR as (σ1 & Hd & HR).
    eauto using V1_dispatch_filed_once.
Qed.

Lemma V1_filed_once_no_rooms σ : V1.rooms σ = ∅ → V1_filed_once σ.
Proof.
  intros Hr r a m. unfold V1.room. rewrite Hr, lookup_total_empty. cbn.
  by rewrite lookup_empty.
Qed.

(** X2: in package [chat], if every member of every room is filed under the
    address of its own connection with its [Room] field on that room (true
    of a server without rooms), this is still so after any queue of commands
    the processor gets through.  In particular no client is filed in two
    rooms, or twice in one. *)
Theorem X2_v1_filed_in_one_room (cmds : list V1.Command) (σ σ' : V1.State) :
  V1_filed_once σ →
  V1.Run cmds σ = Ok σ' →
  V1_filed_once σ' ∧
  ∀ r1 r2 a1 a2 m,
    V1.Members (V1.room σ' r1) !! a1 = Some m →
    V1.Members (V1.room σ' r2) !! a2 = Some m →
    r1 = r2 ∧ a1 = a2.
Proof.
  intros HI HR.
  pose proof (V1_Run_filed_once cmds σ σ' HR HI) as HI'.
  split; [done|].
  intros r1 r2 a1 a2 m H1 H2.
  destruct (HI' _ _ _ H1) as [Hr1 Ha1], (HI' _ _ _ H2) as [Hr2 Ha2].
  split; congruence.
Qed.

(** Alice and bob join "A", alice moves on to "B", bob talks. *)
Lemma X2_alice_moves_witness :
  V1_filed_once Scenario.two_clients_v1 ∧
  ∃ σ', V1.Run Scenario.alice_moves_v1 Scenario.two_clients_v1 = Ok σ' ∧
        V1_filed_once σ' ∧
        ∀ r1 r2 a1 a2 m,
          V1.Members (V1.room σ' r1) !! a1 = Some m →
          V1.Members (V1.room σ' r2) !! a2 = Some m →
          r1 = r2 ∧ a1 = a2.
Proof.
  assert (V1_filed_once Scenario.two_clients_v1) as HI
    by (apply V1_filed_once_no_rooms; reflexivity).
  split; [exact HI|].
  eexists. split; [vm_compute; reflexivity|].
  apply (X2_v1_filed_in_one_room Scenario.alice_moves_v1 Scenario.two_clients_v1);
    [exact HI|vm_compute; reflexivity].
Defined.

(** ** The processor of [chatv2] gets through every queue *)

Lemma V2_buffers_ok_no_rooms σ : V2.Rooms σ = ∅ → V2_buffers_ok σ.
Proof. intros HR name r. by rewrite HR, lookup_empty. Qed.

(** X3: the processor of [chatv2] never panics: from a state whose room
    buffers are within their bounds (true of a server without rooms) it
    handles any queue of commands, whatever their arguments, and ends in
    such a state again. *)
Theorem X3_v2_processor_never_panics (cmds : list V2.Command) (σ : V2.State) :
  V2_buffers_ok σ →
  ∃ σ', V2.Run cmds σ = Ok σ' ∧ V2_buffers_ok σ'.
Proof. apply V2_Run_total. Qed.

(** Malformed commands among good ones: [/name], [/join] and [/msg] without
    arguments, [/msg] to a room nobody made, an unknown command word. *)
Lemma X3_malformed_commands_witness :
  V2_buffers_ok Scenario.two_clients_v2 ∧
  ∃ σ', V2.Run (Scenario.both_in_A_v2 ++
                [Scenario.cmd2 V2.CmdNickname 0 ["/name"];
                 Scenario.cmd2 V2.CmdJoin 1 ["/join"];
                 Scenario.cmd2 V2.CmdMsg 1 ["/msg"];
                 Scenario.cmd2 V2.CmdMsg 1 ["/msg"; "nowhere"; "hi"];
                 Scenario.cmd2 "/dance" 0 ["/dance"]]%string)
          Scenario.two_clients_v2 = Ok σ' ∧
        V2_buffers_ok σ'.
Proof.
  assert (V2_buffers_ok Scenario.two_clients_v2) as Hok
    by (apply V2_buffers_ok_no_rooms; reflexivity).
  split; [exact Hok|].
  apply (X3_v2_processor_never_panics _ Scenario.two_clients_v2 Hok).
Defined.

(** ** Members of [chatv2] rooms stay filed under their own connection *)

(** X4: in [chatv2], if every entry of every room's [Clients] map is filed
    under the connection of the client it points to (true of a server
    without rooms), this is still so after any queue of commands. *)
Theorem X4_v2_members_keyed (cmds : list V2.Command) (σ σ' : V2.State) :
  V2_all_keyed σ →
  V2.Run cmds σ = Ok σ' →
  V2_all_keyed σ'.
Proof. intros Hk HR. by eapply V2_Run_keyed. Qed.

Lemma V2_all_keyed_no_rooms σ : V2.rooms σ = ∅ → V2_all_keyed σ.
Proof.
  intros Hr r. unfold V2.room. rewrite Hr, lookup_total_empty. apply map_Forall_empty.
Qed.

Lemma X4_alice_moves_witness :
  V2_all_keyed Scenario.two_clients_v2 ∧
  ∃ σ', V2.Run Scenario.alice_moves_v2 Scenario.two_clients_v2 = Ok σ' ∧
        V2_all_keyed σ'.
Proof.
  assert (V2_all_keyed Scenario.two_clients_v2) as Hk
    by (apply V2_all_keyed_no_rooms; reflexivity).
  split; [exact Hk|].
  eexists. split; [vm_compute; reflexivity|].
  apply (X4_v2_members_keyed Scenario.alice_moves_v2 Scenario.two_clients_v2);
    [exact Hk|vm_compute; reflexivity].
Defined.

(** ** Rooms are never taken out of the registry *)

Lemma V1_Rooms_quitCurrentRoom c σ : V1.Rooms (V1.quitCurrentRoom c σ) = V1.Rooms σ.
Proof.
  pose proof (V1_quitCurrentRoom_spec σ c) as Hq. cbn zeta in Hq.
  destruct (V1.Room (V1.client σ c)); [by destruct Hq as (-> & _)|by rewrite Hq].
Qed.

Lemma V1_Rooms_Room_Broadcast r s msg σ :
  V1.Rooms (V1.Room_Broadcast r s msg σ) = V1.Rooms σ.
Proof. by rewrite V1_Room_Broadcast_eq. Qed.

Lemma V1_dispatch_Rooms σ σ' cmd :
  V1.dispatch cmd σ = Ok σ' → V1.Rooms σ ⊆ V1.Rooms σ'.
Proof.
  unfold V1.dispatch. intros Hd. destruct (V1.ID cmd).
  - unfold V1.Server_NickName in Hd.
    apply bind_Ok_inv in Hd as (name & _ & Hd). by injection Hd as <-.
  - unfold V1.Server_Join in Hd.
    apply bind_Ok_inv in Hd as (roomName & _ & Hd).
    destruct (V1.Rooms σ !! roomName) as [r|] eqn:Hr; injection Hd as <-;
      cbn [V1.Client_Message V1.emit V1.Rooms];
      rewrite V1_Rooms_Room_Broadcast; cbn [V1.set_client V1.Rooms];
      rewrite V1_Rooms_quitCurrentRoom; cbn; [done|].
    by apply insert_subseteq.
  - by injection Hd as <-.
  - unfold V1.Server_Message in Hd.
    apply bind_Ok_inv in Hd as (text & _ & Hd).
    destruct (V1.Room (V1.client σ (V1.Client_ cmd))) as [r|] eqn:Hroom.
    + rewrite Hroom in Hd. injection Hd as <-. by rewrite V1_Rooms_Room_Broadcast.
    + change (V1.client (V1.Client_Error ?c ?e ?τ) ?c') with (V1.client τ c') in Hd.
      by rewrite Hroom in Hd.
  - injection Hd as <-. cbn. by rewrite V1_Rooms_quitCurrentRoom.
Qed.

Lemma V2_dispatch_Rooms σ σ' cmd :
  V2.dispatch cmd σ = Ok σ' → V2.Rooms σ ⊆ V2.Rooms σ'.
Proof.
  unfold V2.dispatch. intros Hd. repeat case_decide.
  - unfold V2.Server_NickName in Hd. case_decide.
    + by injection Hd as <-.
    + apply bind_Ok_inv in Hd as (name & _ & Hd). by injection Hd as <-.
  - by injection Hd as <-.
  - unfold V2.Server_Join in Hd. case_decide.
    { by injection Hd as <-. }
    apply bind_Ok_inv in Hd as (roomName & _ & Hd).
    apply bind_Ok_inv in Hd as ([r σ1] & Hlk & Hd).
    apply bind_Ok_inv in Hd as (history & _ & Hd).
    injection Hd as <-.
    rewrite V2_Rooms_broadcast, V2_Rooms_replay. cbn.
    destruct (V2.Rooms σ !! roomName) as [r0|] eqn:Hr.
    + by injection Hlk as <- <-.
    + apply bind_Ok_inv in Hlk as (v & _ & Hlk). injection Hlk as <- <-.
      cbn. by apply insert_subseteq.
  - unfold V2.Server_Message in Hd. case_decide.
    + by injection Hd as <-.
    + apply bind_Ok_inv in Hd as (roomName & _ & Hd).
      apply bind_Ok_inv in Hd as (text & _ & Hd).
      destruct (V2.Rooms σ !! roomName) as [r|].
      * apply bind_Ok_inv in Hd as (buf & _ & Hd). injection Hd as <-.
        by rewrite V2_Rooms_broadcast.
      * by injection Hd as <-.
  - injection Hd as <-. cbn.
    destruct (V2.Room (V2.client σ (V2.Client_ cmd))) as [r|]; [|done].
    cbn. by rewrite V2_Rooms_broadcast.
  - by injection Hd as <-.
Qed.

(** X5: neither processor ever takes a room out of the registry or binds a
    registered name to another room: whatever name is registered before a
    queue of commands is registered to the same room after it. *)
Theorem X5_registry_only_grows :
  (∀ cmds σ σ', V1.Run cmds σ = Ok σ' → V1.Rooms σ ⊆ V1.Rooms σ') ∧
  (∀ cmds σ σ', V2.Run cmds σ = Ok σ' → V2.Rooms σ ⊆ V2.Rooms σ').
Proof.
  split.
  - induction cmds as [|cmd cmds IH]; intros σ σ' HR; cbn in HR.
    + by injection HR as <-.
    + apply bind_Ok_inv in HR as (σ1 & Hd & HR).
      etrans; [by apply (V1_dispatch_Rooms σ σ1 cmd)|by apply IH].
  - induction cmds as [|cmd cmds IH]; intros σ σ' HR; cbn in HR.
    + by injection HR as <-.
    + apply bind_Ok_inv in HR as (σ1 & Hd & HR).
      etrans; [by apply (V2_dispatch_Rooms σ σ1 cmd)|by apply IH].
Qed.

(** Room "A" outlives the departure of its last member. *)
Lemma X5_empty_room_stays_witness :
  (∃ σ', V1.Run [Scenario.cmd1 V1.CMD_QUIT 0 ["/quit"]; Scenario.cmd1 V1.CMD_QUIT 1 ["/quit"]]%string
           Scenario.A_with_both_v1 = Ok σ' ∧
         V1.Rooms Scenario.A_with_both_v1 ⊆ V1.Rooms σ') ∧
  (∃ σ', V2.Run [Scenario.cmd2 V2.CmdQuit 0 ["/quit"]; Scenario.cmd2 V2.CmdQuit 1 ["/quit"]]%string
           Scenario.A_with_both_v2 = Ok σ' ∧
         V2.Rooms Scenario.A_with_both_v2 ⊆ V2.Rooms σ').
Proof.
  destruct X5_registry_only_grows as [H1 H2].
  split; (eexists; split; [vm_compute; reflexivity|]).
  - apply (H1 [Scenario.cmd1 V1.CMD_QUIT 0 ["/quit"]; Scenario.cmd1 V1.CMD_QUIT 1 ["/quit"]]%string).
    vm_compute; reflexivity.
  - apply (H2 [Scenario.cmd2 V2.CmdQuit 0 ["/quit"]; Scenario.cmd2 V2.CmdQuit 1 ["/quit"]]%string).
    vm_compute; reflexivity.
Defined.

(** ** What [/msg] does to a room of [chatv2] *)

Lemma V2_Message_spec σ c cmd roomName text r l :
  V2.Rooms σ !! roomName = Some r →
  represents (V2.Messages (V2.room σ r)) l →
  ∃ σ' buf,
    V2.Server_Message c (cmd :: roomName :: text) σ = Ok σ' ∧
    V2.room σ' r = {| V2.Name := V2.Name (V2.room σ r);
                      V2.Clients := V2.Clients (V2.room σ r);
                      V2.Messages := buf |} ∧
    cb_size buf = cb_size (V2.Messages (V2.room σ r)) ∧
    represents buf
      (most_recent (Z.to_nat (cb_size (V2.Messages (V2.room σ r))))
         (l ++ [V2.NickName (V2.client σ c) +:+ ": " +:+ Join text " "])) ∧
    V2.rooms σ' = <[r := V2.room σ' r]> (V2.rooms σ) ∧
    V2.clients σ' = V2.clients σ ∧
    V2.Rooms σ' = V2.Rooms σ ∧
    V2.wire σ' =
      V2.wire σ ++
      notices (V2_conns σ (V2.Clients (V2.room σ r)))
              (line (V2.NickName (V2.client σ c) +:+ ": " +:+ Join text " ")).
Proof.
  intros Hr Hrep. unfold V2.Server_Message.
  rewrite decide_False by (cbn; lia).
  rewrite (index_lookup (cmd :: roomName :: text) 1 roomName eq_refl
             : index _ 1 = Ok roomName), bind_Ok.
  rewrite slice_from_le, bind_Ok by (cbn; lia).
  change (drop 2 (cmd :: roomName :: text)) with text. rewrite Hr.
  destruct (Add_represents
              (V2.NickName (V2.client σ c) +:+ ": " +:+ Join text " ")
              (V2.Messages (V2.room σ r)) l Hrep) as (buf & -> & Hsz & Hrep').
  rewrite bind_Ok. eexists _, buf. split; [reflexivity|].
  autorewrite with v2. cbn [V2.Clients].
  split_and!; try done.
  - by rewrite V2_broadcastMessage_eq.
  - by rewrite V2_clients_broadcast.
Qed.

(** X6: in [chatv2] a [/msg ROOM TEXT...] for a room that exists and whose
    buffer holds the messages [l] puts "nick: text" behind [l] in the room's
    history, dropping the oldest message only when that makes more than the
    buffer's capacity, and writes the same line once to every client filed in
    the room.  The sender need not be in the room; the registry, all
    clients and the room's members are left as they are. *)
Theorem X6_v2_message_appends_and_broadcasts (σ : V2.State) (c : client_ref)
    (cmd roomName : string) (text l : list string) (r : room_ref) :
  V2.Rooms σ !! roomName = Some r →
  represents (V2.Messages (V2.room σ r)) l →
  ∃ σ',
    V2.Server_Message c (cmd :: roomName :: text) σ = Ok σ' ∧
    V2_history σ' roomName =
      Ok (most_recent (Z.to_nat (cb_size (V2.Messages (V2.room σ r))))
            (l ++ [V2.NickName (V2.client σ c) +:+ ": " +:+ Join text " "])) ∧
    V2.Clients (V2.room σ' r) = V2.Clients (V2.room σ r) ∧
    V2.clients σ' = V2.clients σ ∧
    V2.Rooms σ' = V2.Rooms σ ∧
    V2.wire σ' =
      V2.wire σ ++
      notices (V2_conns σ (V2.Clients (V2.room σ r)))
              (line (V2.NickName (V2.client σ c) +:+ ": " +:+ Join text " ")).
Proof.
  intros Hr Hrep.
  destruct (V2_Message_spec σ c cmd roomName text r l Hr Hrep)
    as (σ' & buf & HM & Hroom & Hsz & Hrep' & _ & Hcl & HR & Hw).
  exists σ'. split_and!; try done.
  - unfold V2_history. rewrite HR, Hr, Hroom. cbn.
    by apply GetAll_represents.
  - by rewrite Hroom.
Qed.

(** Alice, who is in no room, writes to room "A", which holds one message
    and bob. *)
Lemma X6_outsider_writes_witness :
  V2.Rooms Scenario.A_with_history_v2 !! "A"%string = Some 0 ∧
  represents (V2.Messages (V2.room Scenario.A_with_history_v2 0)) ["bob: hi"%string] ∧
  ∃ σ',
    V2.Server_Message 0 ["/msg"; "A"; "good"; "morning"]%string
      Scenario.A_with_history_v2 = Ok σ' ∧
    V2_history σ' "A" = Ok ["bob: hi"; "alice: good morning"]%string ∧
    received 11 (V2.wire σ') = [line "alice: good morning"] ∧
    received 10 (V2.wire σ') = [].
Proof.
  assert (represents (V2.Messages (V2.room Scenario.A_with_history_v2 0))
            ["bob: hi"%string]) as Hrep.
  { unfold represents, cb_bounds, cb_backed. split_and!; try (vm_compute; done).
    intros [|[|i]] x Hx; [by injection Hx as <-|done..]. }
  split; [reflexivity|]. split; [exact Hrep|].
  destruct (X6_v2_message_appends_and_broadcasts Scenario.A_with_history_v2 0
              "/msg" "A" ["good"; "morning"]%string ["bob: hi"%string] 0
              eq_refl Hrep) as (σ' & HM & Hh & _ & _ & _ & Hw).
  exists σ'. split; [exact HM|]. split; [exact Hh|].
  rewrite Hw. split; reflexivity.
Defined.

(** ** The histories of [chatv2] stay small *)

Lemma V2_rooms_sat_same P σ σ' :
  V2.Rooms σ' = V2.Rooms σ → V2.rooms σ' = V2.rooms σ →
  V2_rooms_sat P σ → V2_rooms_sat P σ'.
Proof. intros HR Hr Hok name r. unfold V2.room. rewrite HR, Hr. apply Hok. Qed.

Lemma V2_rooms_sat_set_room P σ r v :
  P (V2.Messages v) → V2_rooms_sat P σ → V2_rooms_sat P (V2.set_room r v σ).
Proof.
  intros Hv Hok name r' Hname.
  destruct (decide (r = r')) as [<-|Hne].
  - by rewrite V2_room_set_room_eq.
  - rewrite V2_room_set_room_ne by done. by apply (Hok name).
Qed.

Lemma V2_rooms_sat_set_room_same P σ r v :
  V2.Messages v = V2.Messages (V2.room σ r) →
  V2_rooms_sat P σ → V2_rooms_sat P (V2.set_room r v σ).
Proof.
  intros Hv Hok name r' Hname.
  destruct (decide (r = r')) as [<-|Hne].
  - rewrite V2_room_set_room_eq, Hv. by apply (Hok name).
  - rewrite V2_room_set_room_ne by done. by apply (Hok name).
Qed.

Lemma V2_rooms_sat_broadcast P σ r msg :
  V2_rooms_sat P σ → V2_rooms_sat P (V2.broadcastMessage r msg σ).
Proof. apply V2_rooms_sat_same; by rewrite V2_broadcastMessage_eq. Qed.

Lemma V2_dispatch_rooms_sat (P : CircularBuffer → Prop) :
  P Scenario.empty5 →
  (∀ m b b', P b → Add m b = Ok b' → P b') →
  ∀ σ σ' cmd, V2.dispatch cmd σ = Ok σ' → V2_rooms_sat P σ → V2_rooms_sat P σ'.
Proof.
  intros Hnew Hadd σ σ' cmd. unfold V2.dispatch. intros Hd Hok. repeat case_decide.
  - unfold V2.Server_NickName in Hd. case_decide.
    + injection Hd as <-. by eapply V2_rooms_sat_same.
    + apply bind_Ok_inv in Hd as (name & _ & Hd). injection Hd as <-.
      by eapply V2_rooms_sat_same.
  - injection Hd as <-. by eapply V2_rooms_sat_same.
  - unfold V2.Server_Join in Hd. case_decide.
    { injection Hd as <-. by eapply V2_rooms_sat_same. }
    apply bind_Ok_inv in Hd as (roomName & _ & Hd).
    apply bind_Ok_inv in Hd as ([r σ1] & Hlk & Hd).
    apply bind_Ok_inv in Hd as (history & _ & Hd).
    injection Hd as <-.
    assert (V2_rooms_sat P σ1) as Hok1.
    { destruct (V2.Rooms σ !! roomName) as [r0|] eqn:Hr.
      - by injection Hlk as <- <-.
      - destruct (NewRoom_ok roomName) as (v & Hv & _ & _ & Hbuf & _).
        rewrite Hv, bind_Ok in Hlk. injection Hlk as <- <-.
        intros name' r' Hname. cbn in Hname.
        change (V2.room (V2.set_Rooms _ ?τ) r') with (V2.room τ r').
        destruct (decide (fresh (dom (V2.rooms σ)) = r')) as [<-|Hne].
        + by rewrite V2_room_set_room_eq, Hbuf.
        + rewrite V2_room_set_room_ne by done.
          apply lookup_insert_Some in Hname as [[_ ?]|[_ Hname]]; [done|].
          by apply (Hok name'). }
    apply V2_rooms_sat_broadcast.
    eapply V2_rooms_sat_same; [by rewrite V2_replay_eq..|].
    eapply V2_rooms_sat_same; [done | done |].
    by apply V2_rooms_sat_set_room_same.
  - unfold V2.Server_Message in Hd. case_decide.
    + injection Hd as <-. by eapply V2_rooms_sat_same.
    + apply bind_Ok_inv in Hd as (roomName & _ & Hd).
      apply bind_Ok_inv in Hd as (text & _ & Hd).
      destruct (V2.Rooms σ !! roomName) as [r|] eqn:Hr.
      * apply bind_Ok_inv in Hd as (buf & Hbuf & Hd). injection Hd as <-.
        apply V2_rooms_sat_broadcast, V2_rooms_sat_set_room; [|done].
        cbn. eapply Hadd; [|done]. by apply (Hok roomName).
      * injection Hd as <-. by eapply V2_rooms_sat_same.
  - injection Hd as <-. eapply V2_rooms_sat_same; [done..|].
    destruct (V2.Room (V2.client σ (V2.Client_ cmd))) as [r|]; [|done].
    eapply V2_rooms_sat_same; [done | done |].
    by apply V2_rooms_sat_broadcast, V2_rooms_sat_set_room_same.
  - by injection Hd as <-.
Qed.

Lemma V2_histories_ok_sat σ :
  V2_histories_ok σ ↔
  V2_rooms_sat (λ b, cb_size b = V2.ChatRoomBufferSize ∧ ∃ l, represents b l) σ.
Proof. done. Qed.

Lemma V2_Run_histories_ok cmds : ∀ σ σ',
  V2.Run cmds σ = Ok σ' → V2_histories_ok σ → V2_histories_ok σ'.
Proof.
  induction cmds as [|cmd cmds IH]; intros σ σ' HR Hok; cbn in HR.
  - by injection HR as <-.
  - apply bind_Ok_inv in HR as (σ1 & Hd & HR).
    apply (IH _ _ HR). apply V2_histories_ok_sat.
    eapply (V2_dispatch_rooms_sat _ _ _ σ σ1 cmd Hd); by apply V2_histories_ok_sat.
    Unshelve.
    + split; [done|]. exists []. by apply (represents_new 5).
    + intros m b b' [Hsz [l Hrep]] Hadd.
      destruct (Add_represents m b l Hrep) as (b1 & Hadd1 & Hsz1 & Hrep1).
      rewrite Hadd in Hadd1. injection Hadd1 as <-.
      split; [congruence|]. eauto.
Qed.

(** X7: in [chatv2], if every registered room has a buffer of
    [ChatRoomBufferSize] = 5 cells that holds some list of messages (true of
    a server without rooms), this is still so after any queue of commands,
    and the history of every room (what [Join] would replay) has at most 5
    messages. *)
Theorem X7_v2_histories_hold_five (cmds : list V2.Command) (σ σ' : V2.State) :
  V2_histories_ok σ →
  V2.Run cmds σ = Ok σ' →
  V2_histories_ok σ' ∧
  ∀ name, is_Some (V2.Rooms σ' !! name) →
    ∃ l, V2_history σ' name = Ok l ∧ length l ≤ 5.
Proof.
  intros Hok HR.
  pose proof (V2_Run_histories_ok cmds σ σ' HR Hok) as Hok'.
  split; [done|].
  intros name [r Hr]. destruct (Hok' name r Hr) as (Hsz & l & Hrep).
  exists l. unfold V2_history. rewrite Hr.
  split; [by apply GetAll_represents|].
  destruct Hrep as ((Hc & _) & _ & Hl & _).
  unfold V2.ChatRoomBufferSize in Hsz. lia.
Qed.

Lemma V2_histories_ok_no_rooms σ : V2.Rooms σ = ∅ → V2_histories_ok σ.
Proof. intros HR name r. by rewrite HR, lookup_empty. Qed.

(** Seven messages to room "A": the history keeps the last five. *)
Lemma X7_seven_messages_witness :
  V2_histories_ok Scenario.two_clients_v2 ∧
  ∃ σ', V2.Run Cases.seven_messages_v2 Scenario.two_clients_v2 = Ok σ' ∧
        V2_history σ' "A" =
          Ok ["bob: m3"; "bob: m4"; "bob: m5"; "bob: m6"; "bob: m7"]%string ∧
        V2_histories_ok σ' ∧
        ∀ name, is_Some (V2.Rooms σ' !! name) →
          ∃ l, V2_history σ' name = Ok l ∧ length l ≤ 5.
Proof.
  assert (V2_histories_ok Scenario.two_clients_v2) as Hok
    by (apply V2_histories_ok_no_rooms; reflexivity).
  split; [exact Hok|].
  destruct (V2.Run Cases.seven_messages_v2 Scenario.two_clients_v2)
    as [σ'|p] eqn:HR; [|vm_compute in HR; discriminate HR].
  exists σ'. split; [reflexivity|].
  split; [|exact (X7_v2_histories_hold_five _ _ σ' Hok HR)].
  clear Hok. vm_compute in HR. injection HR as <-. vm_compute. reflexivity.
Defined.

(** ** Joining another room *)

(** X8: in package [chat] a [/join] by a client whose [Room] is [ra], to a
    room name that is not bound to [ra], ends with the client taken out of
    [ra], filed in the room of that name under the address of its
    connection, and with its [Room] field on that room. *)
Theorem X8_v1_join_moves_client (σ : V1.State) (c : client_ref)
    (args : list string) (roomName : string) (ra : room_ref) :
  args !! 1 = Some roomName →
  V1.Room (V1.client σ c) = Some ra →
  V1.Rooms σ !! roomName ≠ Some ra →
  ra ∈ dom (V1.rooms σ) →
  ∃ σ' rb,
    V1.Server_Join c args σ = Ok σ' ∧
    V1.Rooms σ' !! roomName = Some rb ∧ rb ≠ ra ∧
    V1.Room (V1.client σ' c) = Some rb ∧
    V1.Members (V1.room σ' ra) !! RemoteAddr (V1.Conn (V1.client σ c)) = None ∧
    V1.Members (V1.room σ' rb) !! RemoteAddr (V1.Conn (V1.client σ c)) = Some c.
Proof. apply V1_Join_moves. Qed.

(** Alice, in "A" with bob, joins "B", which does not exist yet. *)
Lemma X8_alice_joins_B_witness :
  ["/join"; "B"]%string !! 1 = Some "B"%string ∧
  V1.Room (V1.client Scenario.A_with_both_v1 0) = Some 0 ∧
  V1.Rooms Scenario.A_with_both_v1 !! "B"%string ≠ Some 0 ∧
  0 ∈ dom (V1.rooms Scenario.A_with_both_v1) ∧
  ∃ σ' rb,
    V1.Server_Join 0 ["/join"; "B"]%string Scenario.A_with_both_v1 = Ok σ' ∧
    V1.Rooms σ' !! "B"%string = Some rb ∧ rb ≠ 0 ∧
    V1.Room (V1.client σ' 0) = Some rb ∧
    V1.Members (V1.room σ' 0) !! RemoteAddr 10 = None ∧
    V1.Members (V1.room σ' rb) !! RemoteAddr 10 = Some 0.
Proof.
  assert (V1.Rooms Scenario.A_with_both_v1 !! "B"%string ≠ Some 0) as Hne
    by (vm_compute; discriminate).
  assert (0 ∈ dom (V1.rooms Scenario.A_with_both_v1)) as Hdom
    by (apply elem_of_dom; eexists; reflexivity).
  split; [reflexivity|]. split; [reflexivity|]. split; [exact Hne|]. split; [exact Hdom|].
  apply (X8_v1_join_moves_client Scenario.A_with_both_v1 0
           ["/join"; "B"]%string "B"%string 0 eq_refl eq_refl Hne Hdom).
Defined.

(** X9: in [chatv2] a [/join] changes no room but the one joined: a room
    [ra] that the name joined is not bound to is, members and history, what
    it was, so a client filed in [ra] stays filed there when it joins
    another room. *)
Theorem X9_v2_join_leaves_other_rooms (σ : V2.State) (c : client_ref)
    (args : list string) (roomName : string) (ra : room_ref) :
  args !! 1 = Some roomName →
  V2.Rooms σ !! roomName ≠ Some ra →
  ra ∈ dom (V2.rooms σ) →
  V2_buffers_ok σ →
  ∃ σ', V2.Server_Join c args σ = Ok σ' ∧ V2.room σ' ra = V2.room σ ra.
Proof. apply V2_Join_keeps_old_room. Qed.

Lemma X9_alice_joins_B_witness :
  ["/join"; "B"]%string !! 1 = Some "B"%string ∧
  V2.Rooms Scenario.A_with_both_v2 !! "B"%string ≠ Some 0 ∧
  0 ∈ dom (V2.rooms Scenario.A_with_both_v2) ∧
  V2_buffers_ok Scenario.A_with_both_v2 ∧
  ∃ σ', V2.Server_Join 0 ["/join"; "B"]%string Scenario.A_with_both_v2 = Ok σ' ∧
        V2.room σ' 0 = V2.room Scenario.A_with_both_v2 0.
Proof.
  assert (V2.Rooms Scenario.A_with_both_v2 !! "B"%string ≠ Some 0) as Hne
    by (vm_compute; discriminate).
  assert (0 ∈ dom (V2.rooms Scenario.A_with_both_v2)) as Hdom
    by (apply elem_of_dom; eexists; reflexivity).
  assert (V2_buffers_ok Scenario.A_with_both_v2) as Hok.
  { intros name r Hname.
    unfold Scenario.A_with_both_v2 in Hname. cbn [V2.Rooms] in Hname.
    apply lookup_singleton_Some in Hname as [<- <-].
    unfold cb_bounds, cb_backed. vm_compute. intuition discriminate. }
  split; [reflexivity|]. split; [exact Hne|]. split; [exact Hdom|]. split; [exact Hok|].
  apply (X9_v2_join_leaves_other_rooms Scenario.A_with_both_v2 0
           ["/join"; "B"]%string "B"%string 0 eq_refl Hne Hdom Hok).
Defined.

(** ** Listing the rooms *)

(** X10: [/rooms] writes one line to the issuer and changes nothing else.
    The line names every registered room exactly once, separated by ", ", in
    the order the map happens to be walked.  With no room registered
    [chatv2] says "no rooms available"; package [chat] leaves the list
    empty. *)
Theorem X10_list_rooms :
  (∀ σ c args, ∃ names,
     NoDup names ∧ (∀ n, n ∈ names ↔ is_Some (V1.Rooms σ !! n)) ∧
     V1.Server_ListRooms c args σ =
       Ok (V1.emit (Write (V1.Conn (V1.client σ c))
                      (line ("> available rooms are " +:+ Join names ", "))) σ)) ∧
  (∀ σ c args, ∃ names,
     NoDup names ∧ (∀ n, n ∈ names ↔ is_Some (V2.Rooms σ !! n)) ∧
     V2.Server_ListRooms c args σ =
       Ok (V2.emit (Write (V2.Conn (V2.client σ c))
                      (line ("Rooms: " +:+
                             (if decide (V2.Rooms σ = ∅) then "no rooms available"
                              else Join names ", ")))) σ)).
Proof.
  split.
  - intros σ c args. exists (map_to_list (V1.Rooms σ)).*1.
    split; [apply NoDup_fst_map_to_list|]. split; [apply elem_of_map_keys|done].
  - intros σ c args. exists (map_to_list (V2.Rooms σ)).*1.
    split; [apply NoDup_fst_map_to_list|]. split; [apply elem_of_map_keys|].
    unfold V2.Server_ListRooms. do 4 f_equal.
    destruct (decide (V2.Rooms σ = ∅)) as [->|Hne].
    + by rewrite map_to_list_empty.
    + rewrite decide_False; [done|].
      rewrite length_fmap. intros Hlen%nil_length_inv.
      by apply map_to_list_empty_iff in Hlen.
Qed.

(** ** Splitting and trimming a line *)

Lemma Split_nonempty s sep : GoStrings.Split s sep ≠ [].
Proof.
  destruct s as [|a s]; [done|]. cbn [GoStrings.Split].
  destruct (Ascii.eqb a sep); [done|]. by destruct (GoStrings.Split s sep).
Qed.

Lemma Split_cons s sep : ∃ t ts, GoStrings.Split s sep = t :: ts.
Proof.
  pose proof (Split_nonempty s sep).
  destruct (GoStrings.Split s sep) as [|t ts]; [done|]. by exists t, ts.
Qed.

Lemma append_nil_l (s : string) : "" +:+ s = s.
Proof. reflexivity. Qed.

Lemma append_cons a (s t : string) : String a s +:+ t = String a (s +:+ t).
Proof. reflexivity. Qed.

Lemma append_assoc (a b c : string) : (a +:+ b) +:+ c = a +:+ (b +:+ c).
Proof. induction a as [|x a IH]; [done|]. by rewrite !append_cons, IH. Qed.

(** A piece that holds no separator is the only piece. *)
Lemma Split_no_sep s sep : GoStrings.mem sep s = false → GoStrings.Split s sep = [s].
Proof.
  induction s as [|a s IH]; [done|]. cbn [GoStrings.Split GoStrings.mem].
  rewrite (Ascii.eqb_sym sep a).
  destruct (Ascii.eqb a sep); [done|]. intros Hs. by rewrite IH.
Qed.

(** Splitting goes through a separator. *)
Lemma Split_app s1 s2 sep :
  GoStrings.Split (s1 +:+ String sep s2) sep =
  GoStrings.Split s1 sep ++ GoStrings.Split s2 sep.
Proof.
  induction s1 as [|a s1 IH];
    rewrite ?append_nil_l, ?append_cons; cbn [GoStrings.Split].
  - by rewrite Ascii.eqb_refl.
  - destruct (Ascii.eqb a sep); [by rewrite IH|].
    rewrite IH. by destruct (Split_cons s1 sep) as (t & ts & ->).
Qed.

(** [strings.Join] undoes [strings.Split]. *)
Lemma Join_Split s sep : Join (GoStrings.Split s sep) (String sep "") = s.
Proof.
  induction s as [|a s IH]; [done|]. cbn [GoStrings.Split].
  destruct (Ascii.eqb_spec a sep) as [->|Hne].
  - destruct (Split_cons s sep) as (t & ts & Hs). rewrite Hs in *.
    cbn. cbn in IH. by rewrite IH.
  - destruct (Split_cons s sep) as (t & ts & Hs). rewrite Hs in *.
    destruct ts as [|t' ts]; cbn in *; by rewrite <- IH.
Qed.

Lemma TrimRightWhile_app_l f p t :
  GoStrings.TrimRightWhile f t ≠ "" →
  GoStrings.TrimRightWhile f (p +:+ t) = p +:+ GoStrings.TrimRightWhile f t.
Proof.
  intros Ht. induction p as [|a p IH]; [done|].
  rewrite !append_cons. cbn [GoStrings.TrimRightWhile]. rewrite IH.
  destruct p as [|b p]; rewrite ?append_nil_l, ?append_cons; [|done].
  by destruct (GoStrings.TrimRightWhile f t).
Qed.

Lemma TrimRightWhile_app_r f p t :
  GoStrings.TrimRightWhile f t = "" →
  GoStrings.TrimRightWhile f (p +:+ t) = GoStrings.TrimRightWhile f p.
Proof.
  intros Ht. induction p as [|a p IH]; [done|].
  rewrite append_cons. cbn [GoStrings.TrimRightWhile]. by rewrite IH.
Qed.

Lemma TrimRightWhile_snoc f p a :
  f a = false → GoStrings.TrimRightWhile f (p +:+ String a "") = p +:+ String a "".
Proof.
  intros Ha. rewrite TrimRightWhile_app_l; cbn; by rewrite Ha.
Qed.

(** The two line ends a client sends. *)
Lemma TrimRightWhile_eol eol :
  eol = LF ∨ eol = String GoStrings.CR LF →
  GoStrings.TrimRightWhile (λ a, GoStrings.mem a GoStrings.CRLF) eol = "".
Proof. by intros [->| ->]. Qed.

Lemma append_nil_r (s : string) : s +:+ "" = s.
Proof. induction s as [|a s IH]; [done|]. by rewrite append_cons, IH. Qed.

(** What does not end in a byte of the cutset stays as it is behind a
    prefix that does not either. *)
Lemma TrimRightWhile_keep f (p text : string) :
  p ≠ "" →
  GoStrings.TrimRightWhile f p = p →
  GoStrings.TrimRightWhile f text = text →
  GoStrings.TrimRightWhile f (p +:+ text) = p +:+ text.
Proof.
  intros Hp Hkeep Htext. destruct (decide (text = "")) as [->|Hne].
  - by rewrite append_nil_r.
  - rewrite TrimRightWhile_app_l by by rewrite Htext. by rewrite Htext.
Qed.

(** A command word, its arguments that do not end in CR or LF, and the line
    end: [Trim] takes the line end off and nothing else. *)
Lemma Trim_command_line (word text eol : string) :
  GoStrings.TrimRightWhile (λ a, GoStrings.mem a GoStrings.CRLF) text = text →
  eol = LF ∨ eol = String GoStrings.CR LF →
  GoStrings.Trim ((String "/" word +:+ String GoStrings.SP "") +:+ text +:+ eol)
    GoStrings.CRLF =
  (String "/" word +:+ String GoStrings.SP "") +:+ text.
Proof.
  intros Htext Heol. unfold GoStrings.Trim.
  rewrite <- append_assoc.
  rewrite TrimRightWhile_app_r by by apply TrimRightWhile_eol.
  rewrite TrimRightWhile_keep; [done|done| |done].
  by apply TrimRightWhile_snoc.
Qed.

Lemma TrimSpace_word TF TRF (w : string) :
  w ∈ ["/name"; "/rooms"; "/msg"; "/join"; "/quit"]%string →
  GoStrings.TrimSpace TF TRF w = w.
Proof. intros Hw. repeat (apply elem_of_cons in Hw as [->|Hw]; [done|]). by apply elem_of_nil in Hw. Qed.

(** ** The reader's loop body *)

Lemma index_head {A} (x : A) (l : list A) : index (x :: l) 0 = Ok x.
Proof. exact (index_lookup (x :: l) 0 x eq_refl). Qed.

(** X11: the body of [ReadInput]'s loop never panics, in either variant:
    [strings.Split] always gives a first piece, so [args[0]] exists, also
    for an empty line.  A command it hands to the processor carries the
    reading client, its arguments joined by single spaces are the line
    without its CR and LF ends, byte for byte, and its ID is the one of the
    first argument with white space trimmed. *)
Theorem X11_reader_line_never_panics (TF TRF : string → string)
    (c : client_ref) (msg : string) :
  (∃ a, Reader.V1_line TF TRF c msg = Ok a ∧
     ∀ cmd, a = Reader.Enqueue cmd →
       V1.Client_ cmd = c ∧
       Join (V1.Args cmd) " " = GoStrings.Trim msg GoStrings.CRLF ∧
       ∃ w ts, V1.Args cmd = w :: ts ∧
         (V1.ID cmd, GoStrings.TrimSpace TF TRF w) ∈
           [(V1.CMD_NICKNAME, "/name"); (V1.CMD_ROOMS, "/rooms");
            (V1.CMD_MSG, "/msg"); (V1.CMD_JOIN, "/join");
            (V1.CMD_QUIT, "/quit")]%string) ∧
  (∃ a, Reader.V2_line TF TRF c msg = Ok a ∧
     ∀ cmd, a = Reader.Enqueue cmd →
       V2.Client_ cmd = c ∧
       Join (V2.Args cmd) " " = GoStrings.Trim msg GoStrings.CRLF ∧
       ∃ w ts, V2.Args cmd = w :: ts ∧
         V2.ID cmd = GoStrings.TrimSpace TF TRF w ∧
         V2.ID cmd ∈ [V2.CmdNickname; V2.CmdRooms; V2.CmdMsg; V2.CmdJoin;
                      V2.CmdQuit]).
Proof.
  pose proof (Join_Split (GoStrings.Trim msg GoStrings.CRLF) GoStrings.SP) as HJ.
  destruct (Split_cons (GoStrings.Trim msg GoStrings.CRLF) GoStrings.SP)
    as (t & ts & Hs).
  split.
  - unfold Reader.V1_line. rewrite Hs in *. rewrite index_head, bind_Ok.
    unfold Reader.TrimSpace.
    repeat case_decide; eexists; (split; [reflexivity|]); intros cmd [= <-];
      cbn [V1.Client_ V1.Args V1.ID];
      (split; [done|]); (split; [exact HJ|]); exists t, ts; (split; [done|]);
      match goal with H : _ = _ |- _ => rewrite H end; set_solver.
  - unfold Reader.V2_line. rewrite Hs in *. rewrite index_head, bind_Ok.
    unfold Reader.TrimSpace.
    repeat case_decide; eexists; (split; [reflexivity|]); intros cmd [= <-];
      cbn [V2.Client_ V2.Args V2.ID];
      (split; [done|]); (split; [exact HJ|]); exists t, ts; (split; [done|]);
      (split; [by symmetry|]); set_solver.
Qed.

(** A command line as a client types it: the word, a space, the rest, the
    line end. *)
Lemma Split_command_line (word text eol : string) :
  GoStrings.mem GoStrings.SP word = false →
  GoStrings.TrimRightWhile (λ a, GoStrings.mem a GoStrings.CRLF) text = text →
  eol = LF ∨ eol = String GoStrings.CR LF →
  GoStrings.Split
    (GoStrings.Trim ((String "/" word +:+ String GoStrings.SP "") +:+ text +:+ eol)
       GoStrings.CRLF) GoStrings.SP =
  String "/" word :: GoStrings.Split text GoStrings.SP.
Proof.
  intros Hword Htext Heol. rewrite Trim_command_line by done.
  rewrite append_assoc.
  change (String GoStrings.SP "" +:+ text) with (String GoStrings.SP text).
  rewrite Split_app. by rewrite Split_no_sep.
Qed.

(** X12: in [chatv2] the line [/msg ROOM TEXT], ended by LF or CR LF, for a
    room that exists and whose buffer holds [l]: the reader hands over one
    command and the processor's handler for it writes "nick: TEXT" to every
    client filed in the room and puts it behind [l] in the history, with
    TEXT byte for byte as typed, runs of spaces included.  ROOM holds no
    space and TEXT does not end in CR or LF. *)
Theorem X12_v2_typed_message_arrives (TF TRF : string → string)
    (σ : V2.State) (c : client_ref) (roomName text eol : string)
    (l : list string) (r : room_ref) :
  GoStrings.mem GoStrings.SP roomName = false →
  GoStrings.TrimRightWhile (λ a, GoStrings.mem a GoStrings.CRLF) text = text →
  eol = LF ∨ eol = String GoStrings.CR LF →
  V2.Rooms σ !! roomName = Some r →
  represents (V2.Messages (V2.room σ r)) l →
  ∃ cmd σ',
    Reader.V2_line TF TRF c ("/msg " +:+ roomName +:+ " " +:+ text +:+ eol) =
      Ok (Reader.Enqueue cmd) ∧
    V2.dispatch cmd σ = Ok σ' ∧
    V2.wire σ' =
      V2.wire σ ++
      notices (V2_conns σ (V2.Clients (V2.room σ r)))
              (line (V2.NickName (V2.client σ c) +:+ ": " +:+ text)) ∧
    V2_history σ' roomName =
      Ok (most_recent (Z.to_nat (cb_size (V2.Messages (V2.room σ r))))
            (l ++ [V2.NickName (V2.client σ c) +:+ ": " +:+ text])).
Proof.
  intros Hroom Htext Heol Hr Hrep.
  assert (GoStrings.TrimRightWhile (λ a, GoStrings.mem a GoStrings.CRLF)
            (roomName +:+ " " +:+ text) = roomName +:+ " " +:+ text) as Hrest.
  { destruct (decide (text = "")) as [->|Hne].
    - by apply TrimRightWhile_snoc.
    - rewrite <- append_assoc.
      rewrite TrimRightWhile_app_l by by rewrite Htext. by rewrite Htext. }
  pose proof (Split_command_line "msg" (roomName +:+ " " +:+ text) eol
                eq_refl Hrest Heol) as HS.
  rewrite append_assoc in HS.
  change (String GoStrings.SP "" +:+ ?x) with (" " +:+ x) in HS.
  rewrite !append_assoc in HS.
  change (" " +:+ text) with (String GoStrings.SP text) in HS.
  rewrite Split_app, (Split_no_sep roomName) in HS by done.
  destruct (V2_Message_spec σ c "/msg" roomName
              (GoStrings.Split text GoStrings.SP) r l Hr Hrep)
    as (σ' & buf & HM & Hrm & Hsz & Hrep' & _ & Hcl & HR & Hw).
  change (Join (GoStrings.Split text GoStrings.SP) " ")
    with (Join (GoStrings.Split text GoStrings.SP) (String GoStrings.SP "")) in *.
  rewrite Join_Split in *.
  eexists _, σ'. split_and!.
  - unfold Reader.V2_line.
    change ("/msg " +:+ ?x) with ("/msg" +:+ (" " +:+ x)).
    rewrite HS. cbn [app]. rewrite index_head, bind_Ok.
    unfold Reader.TrimSpace.
    rewrite TrimSpace_word by (do 2 apply list_elem_of_further; apply list_elem_of_here).
    reflexivity.
  - exact HM.
  - exact Hw.
  - unfold V2_history. rewrite HR, Hr, Hrm. cbn.
    by apply GetAll_represents.
Qed.

(** Alice, who is in no room, types a line with two spaces in its text and a
    CR LF end. *)
Lemma X12_two_spaces_witness :
  GoStrings.mem GoStrings.SP "A" = false ∧
  GoStrings.TrimRightWhile (λ a, GoStrings.mem a GoStrings.CRLF) "good  morning"
    = "good  morning"%string ∧
  V2.Rooms Scenario.A_with_history_v2 !! "A"%string = Some 0 ∧
  represents (V2.Messages (V2.room Scenario.A_with_history_v2 0)) ["bob: hi"%string] ∧
  ∃ cmd σ',
    Reader.V2_line id id 0 ("/msg A good  morning" +:+ String GoStrings.CR LF) =
      Ok (Reader.Enqueue cmd) ∧
    V2.dispatch cmd Scenario.A_with_history_v2 = Ok σ' ∧
    received 11 (V2.wire σ') = [line "alice: good  morning"] ∧
    V2_history σ' "A" = Ok ["bob: hi"; "alice: good  morning"]%string.
Proof.
  assert (represents (V2.Messages (V2.room Scenario.A_with_history_v2 0))
            ["bob: hi"%string]) as Hrep.
  { unfold represents, cb_bounds, cb_backed. split_and!; try (vm_compute; done).
    intros [|[|i]] x Hx; [by injection Hx as <-|done..]. }
  split; [reflexivity|]. split; [reflexivity|]. split; [reflexivity|].
  split; [exact Hrep|].
  destruct (X12_v2_typed_message_arrives id id Scenario.A_with_history_v2 0
              "A" "good  morning" (String GoStrings.CR LF) ["bob: hi"%string] 0
              eq_refl eq_refl (or_intror eq_refl) eq_refl Hrep)
    as (cmd & σ' & HL & HD & Hw & Hh).
  exists cmd, σ'. split; [exact HL|]. split; [exact HD|].
  split; [by rewrite Hw|exact Hh].
Defined.

(** X13: in package [chat] the line [/msg TEXT], ended by LF or CR LF, from
    a client filed in a room: the reader hands over one command and the
    processor's handler for it writes "> nick : TEXT" once to every member
    of the room but the one filed under the sender's address, with TEXT byte
    for byte as typed, runs of spaces included.  TEXT does not end in CR or
    LF, and every member is filed under its own address. *)
Theorem X13_v1_typed_message_arrives (TF TRF : string → string)
    (σ : V1.State) (c : client_ref) (text eol : string) (r : room_ref) :
  GoStrings.TrimRightWhile (λ a, GoStrings.mem a GoStrings.CRLF) text = text →
  eol = LF ∨ eol = String GoStrings.CR LF →
  V1.Room (V1.client σ c) = Some r →
  V1_keyed σ (V1.Members (V1.room σ r)) →
  ∃ cmd σ',
    Reader.V1_line TF TRF c ("/msg " +:+ text +:+ eol) = Ok (Reader.Enqueue cmd) ∧
    V1.dispatch cmd σ = Ok σ' ∧
    ∀ cn, received cn (V1.wire σ') =
          received cn (V1.wire σ) ++
          (if decide (is_Some (V1.Members (V1.room σ r) !! RemoteAddr cn) ∧
                      RemoteAddr cn ≠ RemoteAddr (V1.Conn (V1.client σ c)))
           then [line ("> " +:+ V1.NickName (V1.client σ c) +:+ " : " +:+ text)]
           else []).
Proof.
  intros Htext Heol Hroom Hk.
  pose proof (Split_command_line "msg" text eol eq_refl Htext Heol) as HS.
  eexists _, (V1.Room_Broadcast r c
                (V1.NickName (V1.client σ c) +:+ " : " +:+ text) σ).
  split_and!.
  - unfold Reader.V1_line.
    change ("/msg " +:+ ?x) with (("/msg" +:+ String GoStrings.SP "") +:+ x).
    rewrite HS. rewrite index_head, bind_Ok.
    unfold Reader.TrimSpace.
    rewrite TrimSpace_word by (do 2 apply list_elem_of_further; apply list_elem_of_here).
    reflexivity.
  - unfold V1.dispatch. cbn [V1.ID V1.Client_ V1.Args].
    unfold V1.Server_Message. rewrite Hroom.
    rewrite (slice_from_le ("/msg"%string :: GoStrings.Split text GoStrings.SP) 1)
      by (cbn; lia).
    rewrite bind_Ok, Hroom. cbn [drop]. rewrite drop_0.
    change (Join (GoStrings.Split text GoStrings.SP) " ")
      with (Join (GoStrings.Split text GoStrings.SP) (String GoStrings.SP "")).
    by rewrite Join_Split.
  - intros cn. by apply V1_broadcast_received.
Qed.

(** Bob, in room "A" with alice, types a line with two spaces in its text. *)
Lemma X13_two_spaces_witness :
  GoStrings.TrimRightWhile (λ a, GoStrings.mem a GoStrings.CRLF) "good  morning"
    = "good  morning"%string ∧
  V1.Room (V1.client Scenario.A_with_both_v1 1) = Some 0 ∧
  V1_keyed Scenario.A_with_both_v1 (V1.Members (V1.room Scenario.A_with_both_v1 0)) ∧
  ∃ cmd σ',
    Reader.V1_line id id 1 ("/msg good  morning" +:+ LF) = Ok (Reader.Enqueue cmd) ∧
    V1.dispatch cmd Scenario.A_with_both_v1 = Ok σ' ∧
    received 10 (V1.wire σ') = [line "> bob : good  morning"] ∧
    received 11 (V1.wire σ') = [].
Proof.
  assert (V1_keyed Scenario.A_with_both_v1
            (V1.Members (V1.room Scenario.A_with_both_v1 0))) as Hk.
  { refine (bool_decide_unpack _ _). vm_compute. exact I. }
  split; [reflexivity|]. split; [reflexivity|]. split; [exact Hk|].
  destruct (X13_v1_typed_message_arrives id id Scenario.A_with_both_v1 1
              "good  morning" LF 0 eq_refl (or_introl eq_refl) eq_refl Hk)
    as (cmd & σ' & HL & HD & Hw).
  exists cmd, σ'. split; [exact HL|]. split; [exact HD|].
  split; [exact (Hw 10)|exact (Hw 11)].
Defined.

(** ** Reading a line from the connection *)

Lemma length_append (s t : string) :
  String.length (s +:+ t) = String.length s + String.length t.
Proof. induction s as [|a s IH]; [done|]. rewrite append_cons. cbn. by rewrite IH. Qed.

Lemma length_take_drop n (s : string) :
  String.length (Bufio.take n s) + String.length (Bufio.drop n s) = String.length s.
Proof.
  revert s; induction n as [|n IH]; intros [|a s]; cbn; try done.
  by rewrite IH.
Qed.

Lemma length_take_pos n a (s : string) :
  0 < n → 0 < String.length (Bufio.take n (String a s)).
Proof. destruct n; [lia|]. cbn. lia. Qed.

Lemma cut_None_mem d (s : string) : Bufio.cut d s = None ↔ GoStrings.mem d s = false.
Proof.
  induction s as [|a s IH]; [done|]. cbn [Bufio.cut GoStrings.mem].
  rewrite (Ascii.eqb_sym d a). destruct (Ascii.eqb a d); [done|].
  rewrite <- IH. by destruct (Bufio.cut d s) as [[ln rest]|].
Qed.

Lemma cut_first d (l1 tail : string) :
  GoStrings.mem d l1 = false →
  Bufio.cut d (l1 +:+ String d tail) = Some (l1 +:+ String d "", tail).
Proof.
  induction l1 as [|a l1 IH]; rewrite ?append_nil_l, ?append_cons;
    cbn [Bufio.cut GoStrings.mem].
  - by rewrite Ascii.eqb_refl.
  - rewrite (Ascii.eqb_sym d a). destruct (Ascii.eqb a d); [done|].
    intros H. by rewrite IH.
Qed.

Lemma mem_append d (s t : string) :
  GoStrings.mem d (s +:+ t) = GoStrings.mem d s || GoStrings.mem d t.
Proof.
  induction s as [|a s IH]; [done|]. rewrite append_cons. cbn [GoStrings.mem].
  rewrite IH. by destruct (Ascii.eqb d a).
Qed.

Lemma mem_take d n (s : string) :
  GoStrings.mem d s = false → GoStrings.mem d (Bufio.take n s) = false.
Proof.
  revert s; induction n as [|n IH]; intros [|a s]; cbn; try done.
  destruct (Ascii.eqb d a); [done|]. apply IH.
Qed.

Lemma mem_drop d n (s : string) :
  GoStrings.mem d s = false → GoStrings.mem d (Bufio.drop n s) = false.
Proof.
  revert s; induction n as [|n IH]; intros [|a s]; cbn; try done.
  destruct (Ascii.eqb d a); [done|]. apply IH.
Qed.

Lemma pending_cons ch input :
  Bufio.pending (ch :: input) = String.length ch + Bufio.pending input.
Proof. reflexivity. Qed.

(** One read: the bytes go from the connection to the caller, none is lost;
    a read with room for a byte brings one unless the connection is at its
    end. *)
Lemma Read_spec space input data input' err :
  Bufio.Read space input = (data, input', err) →
  String.length data + Bufio.pending input' = Bufio.pending input ∧
  (err = true → data = "" ∧ input' = []) ∧
  (err = false → 0 < space → 0 < String.length data).
Proof.
  revert data input' err. induction input as [|ch input IH]; intros data input' err.
  - cbn. intros [= <- <- <-]. done.
  - destruct ch as [|a ch].
    + cbn [Bufio.Read]. intros H. apply IH in H. cbn. done.
    + cbn [Bufio.Read]. case_decide as Hfit.
      * intros [= <- <- <-]. split_and!; [done|done|]. cbn. lia.
      * intros [= <- <- <-]. split_and!; [|done|].
        -- cbn [Bufio.pending foldr].
           pose proof (length_take_drop space (String a ch)). cbn in *. lia.
        -- intros _ Hs. by apply length_take_pos.
Qed.

Lemma Read_first space a ch rest :
  String.length (String a ch) ≤ space →
  Bufio.Read space (String a ch :: rest) = (String a ch, rest, false).
Proof. intros H. cbn [Bufio.Read]. by rewrite decide_True. Qed.

Lemma ReadString_loop_total fuel d : ∀ acc buf err input,
  ReadString_steps buf err input ≤ fuel →
  ∃ res, Bufio.ReadString_loop fuel d acc buf err input = Some res.
Proof.
  unfold ReadString_steps.
  induction fuel as [|fuel IH]; intros acc buf err input Hfuel.
  { destruct err; [lia|]. case_decide; lia. }
  cbn [Bufio.ReadString_loop].
  destruct (Bufio.cut d buf) as [[ln rest]|]; [by eexists|].
  destruct err; [by eexists|].
  destruct (decide (Bufio.defaultBufSize ≤ String.length buf)) as [Hfull|Hfull].
  - apply IH. rewrite decide_False by (cbn; unfold Bufio.defaultBufSize; lia). lia.
  - destruct (Bufio.Read (Bufio.defaultBufSize - String.length buf) input)
      as [[data input'] err'] eqn:HR.
    apply Read_spec in HR as (Hlen & Herr & Hdata).
    apply IH. destruct err'; [lia|].
    specialize (Hdata eq_refl). case_decide; lia.
Qed.

Lemma ReadString_loop_mono fuel d : ∀ fuel' acc buf err input res,
  Bufio.ReadString_loop fuel d acc buf err input = Some res →
  fuel ≤ fuel' →
  Bufio.ReadString_loop fuel' d acc buf err input = Some res.
Proof.
  induction fuel as [|fuel IH]; intros fuel' acc buf err input res; [done|].
  intros H Hle. destruct fuel' as [|fuel']; [lia|].
  cbn [Bufio.ReadString_loop] in *.
  destruct (Bufio.cut d buf) as [[ln rest]|]; [done|].
  destruct err; [done|].
  case_decide.
  - apply IH; [done|lia].
  - destruct (Bufio.Read (Bufio.defaultBufSize - String.length buf) input)
      as [[data input'] err'].
    apply IH; [done|lia].
Qed.

(** A line that comes without an error took bytes off the connection. *)
Lemma ReadString_loop_pending fuel d : ∀ acc buf err input msg e input',
  Bufio.ReadString_loop fuel d acc buf err input = Some (msg, e, input') →
  Bufio.pending input' ≤ Bufio.pending input ∧
  (e = false → Bufio.cut d buf = None →
   err = false ∧ Bufio.pending input' < Bufio.pending input).
Proof.
  induction fuel as [|fuel IH]; intros acc buf err input msg e input'; [done|].
  cbn [Bufio.ReadString_loop].
  destruct (Bufio.cut d buf) as [[ln rest]|] eqn:Hcut.
  { intros [= <- <- <-]. done. }
  destruct err.
  { intros [= <- <- <-]. done. }
  case_decide as Hfull.
  - intros H. apply IH in H as [Hle Hlt]. split; [done|].
    intros He _. destruct (Hlt He eq_refl). done.
  - destruct (Bufio.Read (Bufio.defaultBufSize - String.length buf) input)
      as [[data input1] err1] eqn:HR.
    apply Read_spec in HR as (Hlen & Herr & Hdata).
    intros H. apply IH in H as [Hle Hlt]. split; [lia|].
    intros He _. split; [done|].
    destruct err1.
    + destruct (Herr eq_refl) as [-> ->]. rewrite append_nil_r in Hlt.
      by destruct (Hlt He Hcut).
    + specialize (Hdata eq_refl). lia.
Qed.

Lemma ReadString_total d input : ∃ res, Bufio.ReadString d input = Some res.
Proof.
  apply ReadString_loop_total. unfold ReadString_steps.
  rewrite decide_False by (cbn; unfold Bufio.defaultBufSize; lia). lia.
Qed.

Lemma ReadString_pending d input msg input' :
  Bufio.ReadString d input = Some (msg, false, input') →
  Bufio.pending input' < Bufio.pending input.
Proof.
  intros H. apply ReadString_loop_pending in H as [_ H]. by destruct (H eq_refl eq_refl).
Qed.

(** ** The reader's loop *)

Lemma ReadInput_loop_total {Cmd} (handle : string → result (Reader.action Cmd)) n :
  ∀ input, Bufio.pending input < n →
  ∃ r, Reader.ReadInput_loop handle n input = Some r.
Proof.
  induction n as [|n IH]; intros input Hn; [lia|].
  cbn [Reader.ReadInput_loop].
  destruct (ReadString_total GoStrings.NL input) as ([[msg e] input'] & HR).
  rewrite HR. destruct e; [by eexists|].
  apply ReadString_pending in HR.
  destruct (handle msg) as [a|p]; [|by eexists].
  destruct (IH input') as [r Hr]; [lia|]. rewrite Hr.
  destruct r; by eexists.
Qed.

Lemma ReadInput_loop_mono {Cmd} (handle : string → result (Reader.action Cmd)) n :
  ∀ m input r,
  Reader.ReadInput_loop handle n input = Some r → n ≤ m →
  Reader.ReadInput_loop handle m input = Some r.
Proof.
  induction n as [|n IH]; intros m input r; [done|].
  intros H Hle. destruct m as [|m]; [lia|].
  cbn [Reader.ReadInput_loop] in *.
  destruct (Bufio.ReadString GoStrings.NL input) as [[[msg e] input']|]; [|done].
  destruct e; [done|].
  destruct (handle msg) as [a|p]; [|done].
  destruct (Reader.ReadInput_loop handle n input') as [r'|] eqn:Hn; [|done].
  by rewrite (IH m input' r' Hn) by lia.
Qed.

(** With fuel for every byte still to come the loop gives what it gives
    with any larger fuel. *)
Lemma ReadInput_loop_enough {Cmd} (handle : string → result (Reader.action Cmd)) n input :
  Bufio.pending input < n →
  Reader.ReadInput_loop handle n input =
  Reader.ReadInput_loop handle (Bufio.pending input + 1) input.
Proof.
  intros Hn.
  destruct (ReadInput_loop_total handle (Bufio.pending input + 1) input) as [r Hr]; [lia|].
  rewrite Hr. apply (ReadInput_loop_mono handle _ _ _ _ Hr). lia.
Qed.

(** A handler that does not panic keeps the loop from panicking. *)
Lemma ReadInput_loop_Ok {Cmd} (handle : string → result (Reader.action Cmd)) n :
  (∀ msg, ∃ a, handle msg = Ok a) →
  ∀ input, Bufio.pending input < n →
  ∃ acts, Reader.ReadInput_loop handle n input = Some (Ok acts).
Proof.
  intros Hh. induction n as [|n IH]; intros input Hn; [lia|].
  cbn [Reader.ReadInput_loop].
  destruct (ReadString_total GoStrings.NL input) as ([[msg e] input'] & HR).
  rewrite HR. destruct e; [by eexists|].
  apply ReadString_pending in HR.
  destruct (Hh msg) as [a ->].
  destruct (IH input') as [acts ->]; [lia|]. by eexists.
Qed.

Lemma V1_line_total TF TRF c msg : ∃ a, Reader.V1_line TF TRF c msg = Ok a.
Proof.
  unfold Reader.V1_line.
  destruct (Split_cons (GoStrings.Trim msg GoStrings.CRLF) GoStrings.SP)
    as (t & ts & ->).
  rewrite index_head, bind_Ok. repeat case_decide; by eexists.
Qed.

Lemma V2_line_total TF TRF c msg : ∃ a, Reader.V2_line TF TRF c msg = Ok a.
Proof.
  unfold Reader.V2_line.
  destruct (Split_cons (GoStrings.Trim msg GoStrings.CRLF) GoStrings.SP)
    as (t & ts & ->).
  rewrite index_head, bind_Ok. repeat case_decide; by eexists.
Qed.

(** The first line of a chunk that fits the reader's buffer. *)
Lemma ReadString_first_line (l1 tail : string) rest :
  GoStrings.mem GoStrings.NL l1 = false →
  String.length (l1 +:+ String GoStrings.NL tail) ≤ Bufio.defaultBufSize →
  Bufio.ReadString GoStrings.NL ((l1 +:+ String GoStrings.NL tail) :: rest) =
  Some (l1 +:+ LF, false, rest).
Proof.
  intros Hl1 Hlen. unfold Bufio.ReadString.
  replace (2 * Bufio.pending ((l1 +:+ String GoStrings.NL tail) :: rest) + 3)
    with (S (S (2 * Bufio.pending ((l1 +:+ String GoStrings.NL tail) :: rest) + 1)))
    by lia.
  set (ch := l1 +:+ String GoStrings.NL tail) in *.
  assert (∃ a ch', ch = String a ch') as (a & ch' & Hch).
  { subst ch. destruct l1; rewrite ?append_nil_l, ?append_cons; by eexists _, _. }
  cbn [Bufio.ReadString_loop Bufio.cut].
  rewrite decide_False by (cbn; unfold Bufio.defaultBufSize; lia).
  change (Bufio.defaultBufSize - String.length "") with Bufio.defaultBufSize.
  rewrite Hch, Read_first by by rewrite <- Hch.
  rewrite append_nil_l, <- Hch. subst ch. by rewrite cut_first.
Qed.

Lemma ReadInput_first_line {Cmd} (handle : string → result (Reader.action Cmd))
    (l1 tail : string) rest a :
  GoStrings.mem GoStrings.NL l1 = false →
  String.length (l1 +:+ String GoStrings.NL tail) ≤ Bufio.defaultBufSize →
  handle (l1 +:+ LF) = Ok a →
  Reader.ReadInput_loop handle
    (Bufio.pending ((l1 +:+ String GoStrings.NL tail) :: rest) + 1)
    ((l1 +:+ String GoStrings.NL tail) :: rest) =
  match Reader.ReadInput_loop handle (Bufio.pending rest + 1) rest with
  | Some (Ok acts) => Some (Ok (a :: acts))
  | other => other
  end.
Proof.
  intros Hl1 Hlen Ha. rewrite Nat.add_1_r. cbn [Reader.ReadInput_loop].
  rewrite ReadString_first_line, Ha by done.
  rewrite ReadInput_loop_enough; [done|].
  rewrite pending_cons, length_append. cbn. lia.
Qed.

(** X14: bytes that reach the reader in one read, behind the first line of
    that read, are never handled, in either variant: every turn of
    [ReadInput]'s loop makes a reader of its own, and what the old one holds
    past the newline goes with it.  For a chunk of at most 4096 bytes,
    [l1], a newline and [tail], the loop handles [l1] and goes on with the
    chunks that follow; [tail] has no part in the result, whole lines in it
    included. *)
Theorem X14_rest_of_chunk_is_dropped (TF TRF : string → string) (c : client_ref)
    (l1 tail : string) (rest : list string) :
  GoStrings.mem GoStrings.NL l1 = false →
  String.length (l1 +:+ String GoStrings.NL tail) ≤ Bufio.defaultBufSize →
  (∃ a acts,
     Reader.V1_line TF TRF c (l1 +:+ LF) = Ok a ∧
     Reader.V1_ReadInput TF TRF c rest = Some (Ok acts) ∧
     Reader.V1_ReadInput TF TRF c ((l1 +:+ String GoStrings.NL tail) :: rest) =
       Some (Ok (a :: acts))) ∧
  (∃ a acts,
     Reader.V2_line TF TRF c (l1 +:+ LF) = Ok a ∧
     Reader.V2_ReadInput TF TRF c rest = Some (Ok acts) ∧
     Reader.V2_ReadInput TF TRF c ((l1 +:+ String GoStrings.NL tail) :: rest) =
       Some (Ok (a :: acts))).
Proof.
  intros Hl1 Hlen. split.
  - destruct (V1_line_total TF TRF c (l1 +:+ LF)) as [a Ha].
    destruct (ReadInput_loop_Ok (Reader.V1_line TF TRF c) (Bufio.pending rest + 1)
                (V1_line_total TF TRF c) rest) as [acts Hacts]; [lia|].
    exists a, acts. split; [done|]. split; [done|].
    unfold Reader.V1_ReadInput.
    by rewrite (ReadInput_first_line _ l1 tail rest a Hl1 Hlen Ha), Hacts.
  - destruct (V2_line_total TF TRF c (l1 +:+ LF)) as [a Ha].
    destruct (ReadInput_loop_Ok (Reader.V2_line TF TRF c) (Bufio.pending rest + 1)
                (V2_line_total TF TRF c) rest) as [acts Hacts]; [lia|].
    exists a, acts. split; [done|]. split; [done|].
    unfold Reader.V2_ReadInput.
    by rewrite (ReadInput_first_line _ l1 tail rest a Hl1 Hlen Ha), Hacts.
Qed.

(** One read brings two lines, the next one a third: the second line,
    [/join A], is lost. *)
Lemma X14_two_lines_in_one_read_witness :
  GoStrings.mem GoStrings.NL "/name bob" = false ∧
  String.length ("/name bob" +:+ String GoStrings.NL ("/join A" +:+ LF))
    ≤ Bufio.defaultBufSize ∧
  Reader.V1_ReadInput id id 0
    [("/name bob" +:+ String GoStrings.NL ("/join A" +:+ LF)); "/quit" +:+ LF] =
    Some (Ok [Reader.Enqueue (Scenario.cmd1 V1.CMD_NICKNAME 0 ["/name"; "bob"]%string);
              Reader.Enqueue (Scenario.cmd1 V1.CMD_QUIT 0 ["/quit"%string])]) ∧
  Reader.V2_ReadInput id id 0
    [("/name bob" +:+ String GoStrings.NL ("/join A" +:+ LF)); "/quit" +:+ LF] =
    Some (Ok [Reader.Enqueue (Scenario.cmd2 V2.CmdNickname 0 ["/name"; "bob"]%string);
              Reader.Enqueue (Scenario.cmd2 V2.CmdQuit 0 ["/quit"%string])]).
Proof.
  assert (String.length ("/name bob" +:+ String GoStrings.NL ("/join A" +:+ LF))
            ≤ Bufio.defaultBufSize) as Hlen.
  { apply Nat.leb_le. vm_compute. reflexivity. }
  split; [reflexivity|]. split; [exact Hlen|].
  destruct (X14_rest_of_chunk_is_dropped id id 0 "/name bob" ("/join A" +:+ LF)
              ["/quit" +:+ LF] eq_refl Hlen)
    as [(a1 & acts1 & HL1 & HR1 & HI1) (a2 & acts2 & HL2 & HR2 & HI2)].
  vm_compute in HL1. injection HL1 as <-.
  vm_compute in HR1. injection HR1 as <-.
  vm_compute in HL2. injection HL2 as <-.
  vm_compute in HR2. injection HR2 as <-.
  split; [exact HI1|exact HI2].
Defined.

(** One turn of [ReadString]'s loop that reads. *)
Lemma ReadString_loop_read fuel d acc buf input data input' err' :
  Bufio.cut d buf = None →
  String.length buf < Bufio.defaultBufSize →
  Bufio.Read (Bufio.defaultBufSize - String.length buf) input = (data, input', err') →
  Bufio.ReadString_loop (S fuel) d acc buf false input =
  Bufio.ReadString_loop fuel d acc (buf +:+ data) err' input'.
Proof.
  intros Hcut Hlen HR. cbn [Bufio.ReadString_loop].
  rewrite Hcut, decide_False by lia. by rewrite HR.
Qed.

Lemma Read_whole space (ch : string) rest :
  ch ≠ "" → String.length ch ≤ space →
  Bufio.Read space (ch :: rest) = (ch, rest, false).
Proof. intros Hne Hfit. destruct ch; [done|]. by apply Read_first. Qed.

Lemma length_pos (s : string) : s ≠ "" → 0 < String.length s.
Proof. destruct s; [done|]. cbn. lia. Qed.

Lemma ReadString_two_reads (ch1 ch2 : string) rest :
  ch1 ≠ "" → ch2 ≠ "" →
  GoStrings.mem GoStrings.NL ch1 = false →
  String.length ch1 + String.length ch2 ≤ Bufio.defaultBufSize →
  Bufio.ReadString GoStrings.NL (ch1 :: ch2 :: rest) =
  Bufio.ReadString GoStrings.NL ((ch1 +:+ ch2) :: rest).
Proof.
  intros H1 H2 Hnl Hlen.
  pose proof (length_pos ch1 H1) as Hp1. pose proof (length_pos ch2 H2) as Hp2.
  assert (String.length "" = 0) as H0 by done.
  unfold Bufio.ReadString. rewrite !pending_cons, length_append.
  set (k := 2 * (String.length ch1 + String.length ch2 + Bufio.pending rest) + 1).
  replace (2 * (String.length ch1 + (String.length ch2 + Bufio.pending rest)) + 3)
    with (S (S k)) by lia.
  replace (2 * (String.length ch1 + String.length ch2 + Bufio.pending rest) + 3)
    with (S (S k)) by lia.
  rewrite (ReadString_loop_read (S k) _ "" "" (ch1 :: ch2 :: rest) ch1 (ch2 :: rest) false);
    [|done|lia|apply Read_whole; [done|lia]].
  rewrite append_nil_l.
  rewrite (ReadString_loop_read k _ "" ch1 (ch2 :: rest) ch2 rest false);
    [|by apply cut_None_mem|lia|apply Read_whole; [done|lia]].
  rewrite (ReadString_loop_read (S k) _ "" "" ((ch1 +:+ ch2) :: rest) (ch1 +:+ ch2) rest false);
    [|done|lia|].
  - rewrite append_nil_l.
    destruct (ReadString_loop_total k GoStrings.NL "" (ch1 +:+ ch2) false rest)
      as [res Hres].
    { unfold ReadString_steps. case_decide; lia. }
    rewrite Hres. symmetry. apply (ReadString_loop_mono k); [done|lia].
  - apply Read_whole.
    + destruct ch1; [done|]. by rewrite append_cons.
    + rewrite length_append. lia.
Qed.

(** X15: a line that reaches the reader in two reads is put together, in
    either variant: when the first chunk holds bytes but no newline and both
    chunks fit the reader's buffer of 4096 bytes, [ReadInput] does with
    them what it does with the two as one chunk. *)
Theorem X15_line_across_two_reads (TF TRF : string → string) (c : client_ref)
    (ch1 ch2 : string) (rest : list string) :
  ch1 ≠ ""%string → ch2 ≠ ""%string →
  GoStrings.mem GoStrings.NL ch1 = false →
  String.length ch1 + String.length ch2 ≤ Bufio.defaultBufSize →
  Reader.V1_ReadInput TF TRF c (ch1 :: ch2 :: rest) =
    Reader.V1_ReadInput TF TRF c ((ch1 +:+ ch2) :: rest) ∧
  Reader.V2_ReadInput TF TRF c (ch1 :: ch2 :: rest) =
    Reader.V2_ReadInput TF TRF c ((ch1 +:+ ch2) :: rest).
Proof.
  intros H1 H2 Hnl Hlen.
  assert (Bufio.pending (ch1 :: ch2 :: rest) = Bufio.pending ((ch1 +:+ ch2) :: rest))
    as Hp by (rewrite !pending_cons, length_append; lia).
  unfold Reader.V1_ReadInput, Reader.V2_ReadInput. rewrite Hp, Nat.add_1_r.
  cbn [Reader.ReadInput_loop]. by rewrite ReadString_two_reads.
Qed.

(** [/join B] comes in two pieces. *)
Lemma X15_join_in_two_pieces_witness :
  GoStrings.mem GoStrings.NL "/jo" = false ∧
  String.length "/jo" + String.length ("in B" +:+ LF) ≤ Bufio.defaultBufSize ∧
  Reader.V1_ReadInput id id 0 ["/jo"%string; "in B" +:+ LF] =
    Some (Ok [Reader.Enqueue (Scenario.cmd1 V1.CMD_JOIN 0 ["/join"; "B"]%string)]) ∧
  Reader.V2_ReadInput id id 0 ["/jo"%string; "in B" +:+ LF] =
    Some (Ok [Reader.Enqueue (Scenario.cmd2 V2.CmdJoin 0 ["/join"; "B"]%string)]).
Proof.
  assert (String.length "/jo" + String.length ("in B" +:+ LF) ≤ Bufio.defaultBufSize)
    as Hlen.
  { apply Nat.leb_le. vm_compute. reflexivity. }
  split; [reflexivity|]. split; [exact Hlen|].
  destruct (X15_line_across_two_reads id id 0 "/jo" ("in B" +:+ LF) []
              ltac:(discriminate) ltac:(discriminate) eq_refl Hlen) as [HV1 HV2].
  split.
  - etransitivity; [exact HV1|]. vm_compute. reflexivity.
  - etransitivity; [exact HV2|]. vm_compute. reflexivity.
Defined.

Lemma Read_no_delim d space : ∀ input data input' err,
  Forall (λ ch, GoStrings.mem d ch = false) input →
  Bufio.Read space input = (data, input', err) →
  GoStrings.mem d data = false ∧ Forall (λ ch, GoStrings.mem d ch = false) input'.
Proof.
  induction input as [|ch input IH]; intros data input' err Hall.
  - cbn. intros [= <- <- <-]. done.
  - apply Forall_cons in Hall as [Hch Hall].
    destruct ch as [|a ch]; [by apply IH|].
    cbn [Bufio.Read]. case_decide.
    + intros [= <- <- <-]. done.
    + intros [= <- <- <-]. split; [by apply mem_take|].
      apply Forall_cons. split; [by apply mem_drop|done].
Qed.

(** Without a delimiter on the connection [ReadString] ends in an error. *)
Lemma ReadString_loop_no_delim fuel d : ∀ acc buf err input msg e input',
  Forall (λ ch, GoStrings.mem d ch = false) input →
  GoStrings.mem d buf = false →
  Bufio.ReadString_loop fuel d acc buf err input = Some (msg, e, input') →
  e = true.
Proof.
  induction fuel as [|fuel IH]; intros acc buf err input msg e input' Hall Hbuf; [done|].
  cbn [Bufio.ReadString_loop].
  rewrite (proj2 (cut_None_mem d buf) Hbuf).
  destruct err; [by intros [= <- <- <-]|].
  case_decide.
  - by apply IH.
  - destruct (Bufio.Read (Bufio.defaultBufSize - String.length buf) input)
      as [[data input1] err1] eqn:HR.
    apply (Read_no_delim d) in HR as [Hdata Hall1]; [|done].
    apply IH; [done|]. by rewrite mem_append, Hbuf, Hdata.
Qed.

(** X16: what a client sends without a newline is never handled, in either
    variant: when no chunk holds a newline, however many bytes there are,
    [ReadInput] returns at the end of the connection and has neither handed
    a command to the processor nor written a reply.  So the last line a
    client sends before it hangs up is lost unless it ends in a newline. *)
Theorem X16_no_newline_nothing_handled (TF TRF : string → string) (c : client_ref)
    (input : list string) :
  Forall (λ ch, GoStrings.mem GoStrings.NL ch = false) input →
  Reader.V1_ReadInput TF TRF c input = Some (Ok []) ∧
  Reader.V2_ReadInput TF TRF c input = Some (Ok []).
Proof.
  intros Hall. unfold Reader.V1_ReadInput, Reader.V2_ReadInput.
  rewrite Nat.add_1_r. cbn [Reader.ReadInput_loop].
  destruct (ReadString_total GoStrings.NL input) as ([[msg e] input'] & HR).
  rewrite HR.
  apply ReadString_loop_no_delim in HR; [|done..]. by subst e.
Qed.

(** [/quit] and then the end of the connection. *)
Lemma X16_quit_without_newline_witness :
  Forall (λ ch, GoStrings.mem GoStrings.NL ch = false) ["/quit"%string] ∧
  Reader.V1_ReadInput id id 0 ["/quit"%string] = Some (Ok []) ∧
  Reader.V2_ReadInput id id 0 ["/quit"%string] = Some (Ok []).
Proof.
  assert (Forall (λ ch, GoStrings.mem GoStrings.NL ch = false) ["/quit"%string])
    as Hall by (by repeat constructor).
  split; [exact Hall|].
  exact (X16_no_newline_nothing_handled id id 0 ["/quit"%string] Hall).
Defined.

(** X17: [ReadInput] comes to its end on every connection that does, and
    without a panic, in either variant: whatever the chunks, the loop
    returns after finitely many lines, each of which it has turned into a
    command for the processor or an error reply. *)
Theorem X17_reader_returns (TF TRF : string → string) (c : client_ref)
    (input : list string) :
  (∃ acts, Reader.V1_ReadInput TF TRF c input = Some (Ok acts)) ∧
  (∃ acts, Reader.V2_ReadInput TF TRF c input = Some (Ok acts)).
Proof.
  split.
  - apply ReadInput_loop_Ok; [apply V1_line_total|lia].
  - apply ReadInput_loop_Ok; [apply V2_line_total|lia].
Qed.

(** ** From the start of the server *)

Lemma V2_histories_buffers_ok σ : V2_histories_ok σ → V2_buffers_ok σ.
Proof.
  intros Hok name r Hr. destruct (Hok name r Hr) as (_ & l & Hrep).
  split; [by eapply represents_bounds|]. by destruct Hrep as (_ & Hb & _).
Qed.

Lemma V2_Serve_histories_ok steps : ∀ σ,
  V2_histories_ok σ →
  ∃ σ', Session.V2_Serve steps σ = Ok σ' ∧ V2_histories_ok σ'.
Proof.
  induction steps as [|[cn|cmd] steps IH]; intros σ Hok; cbn [Session.V2_Serve].
  - by exists σ.
  - apply IH. apply V2_histories_ok_sat.
    by apply (V2_rooms_sat_same _ σ); [..|apply V2_histories_ok_sat].
  - destruct (V2_dispatch_total σ cmd (V2_histories_buffers_ok σ Hok))
      as (σ1 & Hd & _).
    rewrite Hd, bind_Ok. apply IH.
    apply (V2_Run_histories_ok [cmd] σ σ1); [|done].
    cbn. by rewrite Hd.
Qed.

(** X18: [chatv2] cannot be brought down through its commands: from the
    start of the server, through any sequence of connections accepted and
    commands handled, whatever their arguments and whoever sends them, no
    handler panics, and at the end every registered room has a sound
    history buffer of 5 cells whose history has at most 5 messages. *)
Theorem X18_v2_server_never_panics (steps : list (Session.step V2.Command)) :
  ∃ σ', Session.V2_Serve steps V2.NewServer = Ok σ' ∧
        V2_histories_ok σ' ∧
        ∀ name, is_Some (V2.Rooms σ' !! name) →
          ∃ l, V2_history σ' name = Ok l ∧ length l ≤ 5.
Proof.
  destruct (V2_Serve_histories_ok steps V2.NewServer) as (σ' & HS & Hok).
  { by apply V2_histories_ok_no_rooms. }
  exists σ'. split; [done|]. split; [done|].
  intros name [r Hr]. destruct (Hok name r Hr) as (Hsz & l & Hrep).
  exists l. unfold V2_history. rewrite Hr.
  split; [by apply GetAll_represents|].
  destruct Hrep as ((Hc & _) & _ & Hl & _).
  unfold V2.ChatRoomBufferSize in Hsz. lia.
Qed.

Lemma V1_client_fresh σ :
  V1.client σ (fresh (dom (V1.clients σ))) = inhabitant.
Proof.
  unfold V1.client. rewrite lookup_total_alt.
  by rewrite (proj1 (not_elem_of_dom _ _) (is_fresh (dom (V1.clients σ)))).
Qed.

Lemma V1_filed_once_NewClient σ cn :
  V1_filed_once σ → V1_filed_once (V1.NewClient cn σ).2.
Proof.
  intros Hok r a m Hm. cbn in *.
  change (V1.room (V1.set_client _ _ σ) r) with (V1.room σ r) in Hm.
  destruct (Hok r a m Hm) as [HRoom HConn].
  destruct (decide (m = fresh (dom (V1.clients σ)))) as [->|Hne].
  - by rewrite V1_client_fresh in HRoom.
  - by rewrite V1_client_set_client_ne.
Qed.

Lemma V1_Serve_filed_once steps : ∀ σ σ',
  Session.V1_Serve steps σ = Ok σ' → V1_filed_once σ → V1_filed_once σ'.
Proof.
  induction steps as [|[cn|cmd] steps IH]; intros σ σ' HS Hok;
    cbn [Session.V1_Serve] in HS.
  - by injection HS as <-.
  - apply (IH _ _ HS). by apply V1_filed_once_NewClient.
  - apply bind_Ok_inv in HS as (σ1 & Hd & HS).
    apply (IH _ _ HS). by apply (V1_dispatch_filed_once σ σ1 cmd).
Qed.

(** X19: in every state package [chat] reaches from the start of the
    server, through any sequence of connections accepted and commands
    handled without a panic, every member of every room is filed under the
    address of its own connection with its [Room] field on that room, and
    so a broadcast to a room writes its line exactly once to every member
    of the room but the one filed under the sender's address, and to
    nobody else. *)
Theorem X19_v1_server_broadcasts_once (steps : list (Session.step V1.Command))
    (σ' : V1.State) :
  Session.V1_Serve steps V1.NewServer = Ok σ' →
  V1_filed_once σ' ∧
  ∀ r sender msg cn,
    received cn (V1.wire (V1.Room_Broadcast r sender msg σ')) =
    received cn (V1.wire σ') ++
    (if decide (is_Some (V1.Members (V1.room σ' r) !! RemoteAddr cn) ∧
                RemoteAddr cn ≠ RemoteAddr (V1.Conn (V1.client σ' sender)))
     then [line ("> " +:+ msg)] else []).
Proof.
  intros HS.
  assert (V1_filed_once σ') as Hok.
  { apply (V1_Serve_filed_once steps V1.NewServer σ' HS).
    by apply V1_filed_once_no_rooms. }
  split; [done|]. intros r sender msg cn.
  apply V1_broadcast_received. intros a m Hm. by destruct (Hok r a m Hm).
Qed.

(** Three clients; the third has moved from "A" to "B" and does not get
    what bob says in "A", alice does. *)
Lemma X19_three_clients_witness :
  ∃ σ', Session.V1_Serve Cases.three_clients_v1 V1.NewServer = Ok σ' ∧
        received 10 (V1.wire (V1.Room_Broadcast 0 1 "bob : hi" σ')) =
          received 10 (V1.wire σ') ++ [line "> bob : hi"] ∧
        received 11 (V1.wire (V1.Room_Broadcast 0 1 "bob : hi" σ')) =
          received 11 (V1.wire σ') ∧
        received 12 (V1.wire (V1.Room_Broadcast 0 1 "bob : hi" σ')) =
          received 12 (V1.wire σ').
Proof.
  destruct (Session.V1_Serve Cases.three_clients_v1 V1.NewServer)
    as [σ'|p] eqn:HR; [|vm_compute in HR; discriminate HR].
  exists σ'. split; [reflexivity|].
  destruct (X19_v1_server_broadcasts_once _ σ' HR) as [_ HB].
  rewrite !HB. clear HB.
  vm_compute in HR. injection HR as <-.
  split_and!.
  - f_equal.
  - by rewrite app_nil_r.
  - by rewrite app_nil_r.
Defined.
